(** * Verification of the temporal noise resampler of ComfyUI-VideoNoiseWarp

    Shallow embedding of [src/nodes.py]: the index arithmetic of
    [resize_list] and [split_into_n_sublists] (Python [int], binary64
    [float], [round], [int]), the block mean of [downsamp_mean], the
    normalisation of [normalized_noises], the policy dispatch of
    [get_downtemp_noise] and the order of effects of
    [GetWarpedNoiseFromVideo.warp]. *)

From Stdlib Require Import ZArith List Lia Bool.
From Stdlib Require String.
From Stdlib Require Import Reals Lra.
From Stdlib Require SpecFloat.
Import ListNotations.
Import String.StringSyntax.
Local Open Scope string_scope.

Local Open Scope Z_scope.

(** ** Python exceptions as an error monad *)

Inductive exn : Type :=
| ZeroDivisionError
| IndexError
| ValueError
| AssertionError
| OverflowError.

Inductive result (A : Type) : Type :=
| Ok (a : A)
| Raise (e : exn).

Arguments Ok {A} a.
Arguments Raise {A} e.

Definition bind {A B : Type} (r : result A) (k : A -> result B) : result B :=
  match r with
  | Ok a => k a
  | Raise e => Raise e
  end.

Notation "x <- c ;; k" := (bind c (fun x => k))
  (at level 61, c at next level, right associativity).

(** [[f(x) for x in xs]] where [f] may raise: the first exception wins. *)
Fixpoint mapM {A B : Type} (f : A -> result B) (xs : list A) : result (list B) :=
  match xs with
  | [] => Ok []
  | x :: xs' => y <- f x ;; ys <- mapM f xs' ;; Ok (y :: ys)
  end.

(** ** Binary64 arithmetic

    Every finite double is an integer multiple of [2^-1074].  A double [x]
    is represented by the integer [x * 2^1074]; the operations below compute
    the exact result as a fraction and round it to nearest, ties to even
    mantissa, as IEEE 754 prescribes for [/] and [*] and as CPython does for
    [int / int]. *)

Module F64.

Definition scale : Z := 2 ^ 1074.
Definition prec : Z := 53.
Definition overflow_threshold : Z := 2 ^ 1024 * scale.

(** A double, in units of [2^-1074]. *)
Definition float := Z.

(** Nearest integer to [a / c] ([c > 0]), ties to even. *)
Definition round_half_even (a c : Z) : Z :=
  let f := a / c in
  let r := a mod c in
  if 2 * r <? c then f
  else if c <? 2 * r then f + 1
  else if Z.even f then f else f + 1.

(** Spacing of the doubles around [q >= 0] (in units of [2^-1074]). *)
Definition ulp (q : Z) : Z := 2 ^ Z.max 0 (Z.log2 q - (prec - 1)).

(** Rounding of the non-negative fraction [a / b] of units to a double. *)
Definition rnd_pos (a b : Z) : Z :=
  let g := ulp (a / b) in
  g * round_half_even a (b * g).

(** Rounding of [a / b] ([b > 0]) of units, by symmetry for negative [a]. *)
Definition rnd (a b : Z) : Z := Z.sgn a * rnd_pos (Z.abs a) b.

Definition check_finite (x : float) : result float :=
  if Z.abs x <? overflow_threshold then Ok x else Raise OverflowError.

(** [float(i)] *)
Definition of_int (i : Z) : result float := check_finite (rnd (i * scale) 1).

(** Python [a / b] on two [int]s: correctly rounded true division. *)
Definition int_truediv (a b : Z) : result float :=
  if b =? 0 then Raise ZeroDivisionError
  else check_finite (rnd (Z.sgn b * a * scale) (Z.abs b)).

(** [x * y] on doubles; an infinite product is reported as an overflow,
    which is what [round] does with it. *)
Definition mul (x y : float) : result float := check_finite (rnd (x * y) scale).

(** [round(x)] on a double: nearest integer, ties to even. *)
Definition round (x : float) : Z := Z.sgn x * round_half_even (Z.abs x) scale.

(** [int(x)] on a double: truncation toward zero. *)
Definition trunc (x : float) : Z := Z.quot x scale.

End F64.

(** ** Python sequences and numbers *)

Module Py.

Definition len {A : Type} (l : list A) : Z := Z.of_nat (length l).

(** [range(n)] *)
Definition range (n : Z) : list Z := map Z.of_nat (seq 0 (Z.to_nat n)).

(** [l[i]], with Python's negative indices and its [IndexError]. *)
Definition getitem {A : Type} (l : list A) (i : Z) : result A :=
  let j := if i <? 0 then i + len l else i in
  if j <? 0 then Raise IndexError
  else match nth_error l (Z.to_nat j) with
       | Some x => Ok x
       | None => Raise IndexError
       end.

Definition clamp (L i : Z) : Z :=
  if i <? 0 then Z.max 0 (i + L) else Z.min i L.

(** [l[a:b]]: bounds are clamped, never an error. *)
Definition slice {A : Type} (l : list A) (a b : Z) : list A :=
  let a' := clamp (len l) a in
  let b' := clamp (len l) b in
  firstn (Z.to_nat (b' - a')) (skipn (Z.to_nat a') l).

(** A Python number: [step] in [resize_list] is the [int] 0 or a [float]. *)
Inductive num : Type :=
| Int (z : Z)
| Float (x : F64.float).

(** [i * s] for an [int] [i]. *)
Definition int_mul (i : Z) (s : num) : result num :=
  match s with
  | Int z => Ok (Int (i * z))
  | Float x => fi <- F64.of_int i ;; p <- F64.mul fi x ;; Ok (Float p)
  end.

(** [round(v)] *)
Definition round (v : num) : Z :=
  match v with
  | Int z => z
  | Float x => F64.round x
  end.

End Py.

(** ** Index arithmetic of [resize_list] and [split_into_n_sublists] *)

(** [step] of [resize_list] for a source of length [L]. *)
Definition resize_step (L length : Z) : result Py.num :=
  if (1 <? L) && (1 <? length)
  then x <- F64.int_truediv (L - 1) (length - 1) ;; Ok (Py.Float x)
  else Ok (Py.Int 0).

(** [indices = [round(i * step) for i in range(length)]] *)
Definition resize_indices (L length : Z) : result (list Z) :=
  step <- resize_step L length ;;
  mapM (fun i => p <- Py.int_mul i step ;; Ok (Py.round p)) (Py.range length).

Definition resize_list {A : Type} (array : list A) (length : Z) : result (list A) :=
  if length <? 0 then Raise AssertionError
  else indices <- resize_indices (Py.len array) length ;;
       mapM (Py.getitem array) indices.

(** [indices = [int(i * L / n) for i in range(n + 1)]] *)
Definition split_indices (L n : Z) : result (list Z) :=
  mapM (fun i => q <- F64.int_truediv (i * L) n ;; Ok (F64.trunc q))
       (Py.range (n + 1)).

Definition split_into_n_sublists {A : Type} (l : list A) (n : Z)
  : result (list (list A)) :=
  if n <=? 0 then Raise ValueError
  else indices <- split_indices (Py.len l) n ;;
       mapM (fun i => a <- Py.getitem indices i ;;
                      b <- Py.getitem indices (i + 1) ;;
                      Ok (Py.slice l a b))
            (Py.range n).

(** ** Tensors

    What the resampler asks of the elements of a noise sequence. *)

Class Tensor (A : Type) : Type := {
  (** [z + x] for an [int] [z]: the first step of Python's [sum] *)
  radd : Z -> A -> A;
  (** [x + y] *)
  add : A -> A -> A;
  (** [x / n] for an [int] [n] *)
  div_int : A -> Z -> A;
  (** [x / x.std(1, keepdim=True)] *)
  div_std1 : A -> A
}.

Section Resampler.

Context {A : Type} `{Tensor A}.

(** The global generator of [torch], and [torch.randn_like] on one element. *)
Variable rng : Type.
Variable randn_like : A -> rng -> A * rng.

(** [sum(u) / len(u)]: [sum] of no element is the [int] 0, and [0 / 0]
    raises. *)
Definition block_mean (u : list A) : result A :=
  match u with
  | [] => Raise ZeroDivisionError
  | x :: xs => Ok (div_int (fold_left add xs (radd 0 x)) (Py.len u))
  end.

Definition downsamp_mean (x : list A) (l : Z) : result (list A) :=
  blocks <- split_into_n_sublists x l ;;
  mapM block_mean blocks.

Definition normalized_noises (noises : list A) : list A :=
  map div_std1 noises.

(** [torch.randn_like] on a sequence: one fresh element per element. *)
Fixpoint randn_like_seq (xs : list A) (g : rng) : list A * rng :=
  match xs with
  | [] => ([], g)
  | x :: xs' =>
      let (y, g1) := randn_like x g in
      let (ys, g2) := randn_like_seq xs' g1 in
      (y :: ys, g2)
  end.

Definition get_downtemp_noise (noise : list A) (noise_downtemp_interp : String.string)
    (interp_to : Z) (g : rng) : result (list A) * rng :=
  if String.eqb noise_downtemp_interp "nearest" then
    (resize_list noise interp_to, g)
  else if String.eqb noise_downtemp_interp "blend" then
    (downsamp_mean noise interp_to, g)
  else if String.eqb noise_downtemp_interp "blend_norm" then
    (r <- downsamp_mean noise interp_to ;; Ok (normalized_noises r), g)
  else if String.eqb noise_downtemp_interp "randn" then
    match resize_list noise interp_to with
    | Ok r => let (r', g') := randn_like_seq r g in (Ok r', g')
    | Raise e => (Raise e, g)
    end
  else (Ok noise, g).

End Resampler.

(** ** Tensors of real numbers, channel x height x width

    The entries of a noise field are idealised as real numbers, so that
    [std] and [sqrt] have their mathematical meaning. *)

Module RealTensor.

Local Open Scope R_scope.

Definition zip_with {X Y W : Type} (f : X -> Y -> W) (xs : list X) (ys : list Y)
  : list W :=
  map (fun p => f (fst p) (snd p)) (combine xs ys).

Definition rsum (v : list R) : R := fold_right Rplus 0 v.

Definition mean (v : list R) : R := rsum v / INR (length v).

(** [torch.std] of the values [v]: the unbiased estimator, which is the
    default of [Tensor.std]. *)
Definition std (v : list R) : R :=
  sqrt (rsum (map (fun x => (x - mean v) ^ 2) v) / (INR (length v) - 1)).

(** One channel is a list of rows; a field is a list of channels. *)
Definition channel : Type := list (list R).
Definition chw : Type := list channel.

Definition entry (x : chw) (c h w : nat) : R :=
  nth w (nth h (nth c x []) []) 0.

Definition width (ch : channel) : nat := length (hd [] ch).

(** The values of column [w] of a channel, over the height. *)
Definition column (ch : channel) (w : nat) : list R :=
  map (fun row => nth w row 0) ch.

(** [x.std(1, keepdim=True)] on one channel of a C x H x W tensor: axis 1 is
    the height, so one value per column is left. *)
Definition std_dim1 (ch : channel) : list R :=
  map (fun w => std (column ch w)) (seq 0 (width ch)).

(** [x / x.std(1, keepdim=True)]: the row of column values is broadcast
    over the height. *)
Definition chw_div_std1 (x : chw) : chw :=
  map (fun ch => map (fun row => zip_with Rdiv row (std_dim1 ch)) ch) x.

#[global] Instance chw_tensor : Tensor chw := {
  radd z x := map (map (map (fun v => IZR z + v))) x;
  add x y := zip_with (zip_with (zip_with Rplus)) x y;
  div_int x n := map (map (map (fun v => v / IZR n))) x;
  div_std1 := chw_div_std1
}.

(** What the specification describes instead: one standard deviation per
    channel, over all its height-and-width positions. *)
Definition std_spatial (ch : channel) : R := std (concat ch).

Definition chw_div_std_spatial (x : chw) : chw :=
  map (fun ch => map (map (fun v => v / std_spatial ch)) ch) x.

(** A C x H x W tensor has [C] channels of [H] rows of [W] values. *)
Definition has_shape (C H W : nat) (x : chw) : Prop :=
  length x = C /\
  Forall (fun ch => length ch = H /\
                    Forall (fun row => length row = W) ch) x.

End RealTensor.

(** ** Noise Mixer *)

Module Mixer.

Section Mix.

Local Open Scope R_scope.

(** The generator and one standard-normal draw. *)
Variable rng : Type.
Variable randn : rng -> R * rng.

(** [torch.randn_like] on the entries of a tensor, in order. *)
Fixpoint randn_like (x : list R) (g : rng) : list R * rng :=
  match x with
  | [] => ([], g)
  | _ :: x' =>
      let (f, g1) := randn g in
      let (fs, g2) := randn_like x' g1 in
      (f :: fs, g2)
  end.

(** Modelled from the spec: [mix_new_noise] is imported from
    [noisewarp/noise_warp.py], which is not among the sources.  The spec
    gives its contract: output = sqrt(1 - d) * existing + sqrt(d) * fresh,
    elementwise, with [fresh] drawn per call and of the shape of the
    input.  A tensor is given by the list of its entries. *)
Definition mix_new_noise (existing : list R) (d : R) (g : rng)
  : list R * rng :=
  let (fresh, g') := randn_like existing g in
  (RealTensor.zip_with (fun e f => sqrt (1 - d) * e + sqrt d * f) existing fresh,
   g').

End Mix.

End Mixer.

(** ** The behaviour the specification describes, in exact arithmetic *)

Module Spec.

(** Block boundary [b_k = floor(k * L / T)]. *)
Definition boundary (L T k : Z) : Z := k * L / T.

(** Block [k]: the elements at positions [b_k .. b_(k+1) - 1]. *)
Definition block {A : Type} (l : list A) (T k : Z) : list A :=
  firstn (Z.to_nat (boundary (Py.len l) T (k + 1) - boundary (Py.len l) T k))
         (skipn (Z.to_nat (boundary (Py.len l) T k)) l).

Definition blocks {A : Type} (l : list A) (T : Z) : list (list A) :=
  map (block l T) (Py.range T).

(** Arithmetic mean of a block: its sum over its length; no block, no mean. *)
Definition mean {A : Type} `{Tensor A} (u : list A) : option A :=
  match u with
  | [] => None
  | x :: xs => Some (div_int (fold_left add xs (radd 0 x)) (Py.len u))
  end.

(** Nearest integer to [a / c], ties upward. *)
Definition round_half_up (a c : Z) : Z := (2 * a + c) / (2 * c).

(** Index [i] of the nearest policy: [round(i * (L - 1) / (T - 1))] on the
    exact quotient, and 0 when [L] or [T] is 1. *)
Definition nearest_index (rounding : Z -> Z -> Z) (L T i : Z) : Z :=
  if (1 <? L) && (1 <? T) then rounding (i * (L - 1)) (T - 1) else 0.

(** Block sizes when the last block takes the whole remainder: [n - 1]
    blocks of [L / n] elements, then one of [L / n + L mod n]. *)
Definition remainder_last_sizes (L n : Z) : list Z :=
  repeat (L / n) (Z.to_nat (n - 1)) ++ [L / n + L mod n].

End Spec.

(** ** Range of sizes covered by the arithmetic facts

    The lengths of sequences and the target counts are taken up to
    [max_len]; the node itself limits the target count to 2048. *)

Definition max_len : Z := 2 ^ 24.

(** [round(i * step)] for a source of [n + 1] elements and a target of
    [m + 1], when no operation overflows. *)
Definition float_index (n m i : Z) : Z :=
  F64.round_half_even
    (F64.rnd_pos (i * F64.scale * F64.rnd_pos (n * F64.scale) m) F64.scale)
    F64.scale.

(** A trivial generator and sampler, to run the resampler on examples. *)
Definition no_randn (x : RealTensor.chw) (g : unit) : RealTensor.chw * unit := (x, g).

(** The index that [resize_list] computes for output position [i]. *)
Definition resize_index (L T i : Z) : Z :=
  if (1 <? L) && (1 <? T) then float_index (L - 1) (T - 1) i else 0.

(** The policies that resample; any other name, ["disabled"] included, is
    the [else] branch of [get_downtemp_noise]. *)
Definition resampling_policies : list String.string :=
  ["nearest"; "blend"; "blend_norm"; "randn"].

(** A noise field of one channel, three rows and two columns. *)
Definition field_3x2 : RealTensor.chw := [[[0; 0]; [1; 2]; [2; 4]]]%R.

(** ** The library's binary64, to compare [F64] with *)

Module Binary64Check.
Import SpecFloat.

(** A finite [spec_float] of binary64, in units of [2^-1074]. *)
Definition units (f : spec_float) : option Z :=
  match f with
  | S754_zero _ => Some 0
  | S754_finite s m e => Some ((if s then -1 else 1) * Z.pos m * 2 ^ (e + 1074))
  | _ => None
  end.

Definition sf_of_int (i : Z) : spec_float := binary_normalize 53 1024 i 0 false.

(** [i * (n / m)] with the operations of the library's binary64. *)
Definition sf_product (n m i : Z) : option Z :=
  units (SFmul 53 1024 (sf_of_int i) (SFdiv 53 1024 (sf_of_int n) (sf_of_int m))).

(** The same with the operations of [F64]. *)
Definition f64_product (n m i : Z) : option Z :=
  match (x <- F64.int_truediv n m ;; fi <- F64.of_int i ;; F64.mul fi x) with
  | Ok p => Some p
  | Raise _ => None
  end.

Definition agree (n m : Z) : bool :=
  forallb (fun i => match sf_product n m i, f64_product n m i with
                    | Some a, Some b => a =? b
                    | _, _ => false
                    end)
          (Py.range (m + 1)).

End Binary64Check.

(** ** The [str] branch of [split_into_n_sublists]

    [''.join(split_into_n_sublists(list(l), n))]: the blocks are lists of
    characters, and [str.join] raises [TypeError] on an item that is not a
    [str]. *)

Inductive outcome (A : Type) : Type :=
| Returns (a : A)
| Raises (e : exn)
| RaisesTypeError.

Arguments Returns {A} a.
Arguments Raises {A} e.
Arguments RaisesTypeError {A}.

(** [''.join(items)] for items that are lists. *)
Definition str_join (items : list (list Ascii.ascii)) : outcome String.string :=
  match items with
  | [] => Returns ""
  | _ :: _ => RaisesTypeError
  end.

Definition split_into_n_sublists_str (l : String.string) (n : Z)
  : outcome String.string :=
  if n <=? 0 then Raises ValueError
  else match split_into_n_sublists (String.list_ascii_of_string l) n with
       | Ok blocks => str_join blocks
       | Raise e => Raises e
       end.

(** ** Pipeline driver: [GetWarpedNoiseFromVideo.warp]

    The collaborators (device selection, the flow estimator, the noise
    warper, the array conversions, the mixer) are parameters; each one that
    draws random numbers takes the state of the global generator and
    returns the new one. *)

Section Pipeline.

Context {A : Type} `{Tensor A}.

Variable rng : Type.
Variable randn_like : A -> rng -> A * rng.

Variables device image frame flow flows warper field vis latent scalar : Type.

(** [mm.get_torch_device()] *)
Variable get_torch_device : device.
(** [torch.manual_seed(seed)]: the state of the global generator afterwards *)
Variable manual_seed : Z -> rng.
(** [RaftOpticalFlow(device, "large")], then its call on two frames *)
Variable RaftOpticalFlow : device -> String.string -> frame -> frame -> flow * flow.
(** [images.shape] and the frames of [images.permute(0, 3, 1, 2)] *)
Variable shape : image -> Z * Z * Z * Z.
Variable permute_frames : image -> list frame.
(** [NoiseWarper(c, h, w, device, post_noise_alpha, progressive_noise_alpha)],
    its [noise] attribute and its call on [(dx, dy)] *)
Variable NoiseWarper : Z -> Z -> Z -> device -> Z -> Z -> rng -> warper * rng.
Variable warper_noise : warper -> field.
Variable warper_call : warper -> flow -> flow -> rng -> warper * rng.
(** [F.interpolate(noise, scale_factor=1/k, mode='area')] and [noise * k] *)
Variable interpolate_area : field -> Z -> field.
Variable field_scale : field -> Z -> field.
(** [.cpu().numpy().astype(np.float16)] on a field, [np.stack] of a flow pair *)
Variable to_float16 : field -> field.
Variable stack_flow : flow -> flow -> flows.
(** one time step of [torch.from_numpy(numpy_noises).squeeze(1).cpu().float()] *)
Variable to_element : field -> A.
(** the visualisation tensor, from the first [min(noise_channels, 3)] channels *)
Variable to_vis : list field -> Z -> vis.
(** [mix_new_noise] on the batched tensor *)
Variable mix_new_noise : latent -> scalar -> rng -> latent * rng.
(** [t[None]], [t.permute(0, 2, 1, 3, 4)] and [t.squeeze(0)] *)
Variable unsqueeze0 : list A -> latent.
Variable permute_02134 : latent -> latent.
Variable squeeze0 : latent -> latent.

Definition downscale_noise (downscale_factor : Z) (noise : field) : field :=
  field_scale (interpolate_area noise downscale_factor) downscale_factor.

(** State of the loop over [video_frames[1:]]. *)
Record loop_state : Type := {
  prev_video_frame : frame;
  the_warper : warper;
  numpy_noises : list field;
  numpy_flows : list flows;
  generator : rng
}.

Definition loop_body (raft_model : frame -> frame -> flow * flow)
    (downscale_factor : Z) (st : loop_state) (video_frame : frame) : loop_state :=
  let (dx, dy) := raft_model (prev_video_frame st) video_frame in
  let (w', g') := warper_call (the_warper st) dx dy (generator st) in
  {| prev_video_frame := video_frame;
     the_warper := w';
     numpy_noises :=
       numpy_noises st ++ [to_float16 (downscale_noise downscale_factor (warper_noise w'))];
     numpy_flows := numpy_flows st ++ [stack_flow dx dy];
     generator := g' |}.

(** [warp], run with the global generator in state [g0]. *)
Definition warp (images : image) (noise_channels : Z)
    (noise_downtemp_interp : String.string) (degradation : scalar)
    (target_latent_count : Z) (latent_shape : String.string) (seed : Z)
    (g0 : rng) : result (latent * vis) * rng :=
  let device := get_torch_device in
  let g1 := manual_seed seed in
  let downscale_factor := 1 * 1 * 8 in
  let raft_model := RaftOpticalFlow device "large" in
  let '(_, H', W', _) := shape images in
  let video_frames := permute_frames images in
  let (w0, g2) := NoiseWarper noise_channels (1 * H') (1 * W') device 0 0 g1 in
  match video_frames with
  | [] => (Raise IndexError, g2)
  | first :: rest =>
      let st0 := {| prev_video_frame := first;
                    the_warper := w0;
                    numpy_noises :=
                      [to_float16 (downscale_noise downscale_factor (warper_noise w0))];
                    numpy_flows := [];
                    generator := g2 |} in
      let st := fold_left (loop_body raft_model downscale_factor) rest st0 in
      match numpy_flows st with
      | [] => (Raise ValueError, generator st)
      | _ :: _ =>
          let vis_tensor_noises := to_vis (numpy_noises st) (Z.min noise_channels 3) in
          let noise_tensor := map to_element (numpy_noises st) in
          let (r, g3) :=
            get_downtemp_noise rng randn_like noise_tensor noise_downtemp_interp
              target_latent_count (generator st) in
          match r with
          | Raise e => (Raise e, g3)
          | Ok downtemp =>
              let (mixed, g4) := mix_new_noise (unsqueeze0 downtemp) degradation g3 in
              let out :=
                if String.eqb latent_shape "BTCHW" then permute_02134 mixed
                else if String.eqb latent_shape "BCHW" then squeeze0 mixed
                else mixed in
              (Ok (out, vis_tensor_noises), g4)
          end
      end
  end.

(** C9.  [warp] seeds the global generator from [seed] before anything
    draws from it, so its outputs (and the generator it leaves behind) do
    not depend on the state of the generator before the call: two runs with
    the same seed and the same inputs give identical outputs, the
    collaborators being functions of their arguments and of the generator. *)
Theorem warp_seed_determines_output (images : image) (noise_channels : Z)
    (noise_downtemp_interp : String.string) (degradation : scalar)
    (target_latent_count : Z) (latent_shape : String.string) (seed : Z)
    (g g' : rng) :
  warp images noise_channels noise_downtemp_interp degradation
       target_latent_count latent_shape seed g
  = warp images noise_channels noise_downtemp_interp degradation
         target_latent_count latent_shape seed g'.
Proof. reflexivity. Qed.

End Pipeline.

(** A run of [warp] on stand-in collaborators: frames without content, a
    warper without state, every snapshot equal to [field_3x2],
    a visualisation that records the number of snapshots and of channels. *)
Definition toy_warp (frames : list unit) :=
  warp unit no_randn unit unit unit unit unit unit unit (nat * Z)%type
       (list RealTensor.chw) unit
       tt (fun _ => tt) (fun _ _ _ _ => (tt, tt)) (fun _ => (1, 64, 64, 3))
       (fun _ => frames) (fun _ _ _ _ _ _ g => (tt, g)) (fun _ => tt)
       (fun w _ _ g => (w, g)) (fun f _ => f) (fun f _ => f) (fun f => f)
       (fun _ _ => tt) (fun _ => field_3x2) (fun l c => (length l, c))
       (fun l _ g => (l, g)) (fun l => l) (fun l => l) (fun l => l).

(** * Facts *)

(** ** Rounding to the nearest integer *)

Module F64Facts.
Import F64.

Lemma round_half_even_le a c k :
  0 < c -> a <= k * c -> round_half_even a c <= k.
Proof.
  intros Hc Hk. unfold round_half_even.
  pose proof (Z.div_mod a c ltac:(lia)) as E.
  pose proof (Z.mod_pos_bound a c Hc) as B.
  destruct (2 * (a mod c) <? c) eqn:E1; [nia|].
  apply Z.ltb_ge in E1.
  assert (a / c + 1 <= k) by nia.
  destruct (c <? 2 * (a mod c)); [lia|].
  destruct (Z.even (a / c)); lia.
Qed.

Lemma round_half_even_ge a c k :
  0 < c -> k * c <= a -> k <= round_half_even a c.
Proof.
  intros Hc Hk. unfold round_half_even.
  pose proof (Z.div_mod a c ltac:(lia)) as E.
  pose proof (Z.mod_pos_bound a c Hc) as B.
  assert (k <= a / c) by nia.
  destruct (2 * (a mod c) <? c); [lia|].
  destruct (c <? 2 * (a mod c)); [lia|].
  destruct (Z.even (a / c)); lia.
Qed.

Lemma round_half_even_near a c :
  0 < c -> - c <= 2 * (round_half_even a c * c - a) <= c.
Proof.
  intros Hc. unfold round_half_even.
  pose proof (Z.div_mod a c ltac:(lia)) as E.
  pose proof (Z.mod_pos_bound a c Hc) as B.
  destruct (2 * (a mod c) <? c) eqn:E1; [apply Z.ltb_lt in E1; nia|].
  apply Z.ltb_ge in E1.
  destruct (c <? 2 * (a mod c)) eqn:E2; [apply Z.ltb_lt in E2; nia|].
  apply Z.ltb_ge in E2.
  destruct (Z.even (a / c)); nia.
Qed.

Lemma round_half_even_mono a a' c :
  0 < c -> a <= a' -> round_half_even a c <= round_half_even a' c.
Proof.
  intros Hc Ha.
  pose proof (Z.div_le_mono a a' c Hc Ha) as D.
  destruct (Z.eq_dec (a / c) (a' / c)) as [Q|Q].
  - unfold round_half_even. rewrite <- Q.
    pose proof (Z.div_mod a c ltac:(lia)) as E.
    pose proof (Z.div_mod a' c ltac:(lia)) as E'. rewrite <- Q in E'.
    assert (a mod c <= a' mod c) by lia.
    destruct (2 * (a mod c) <? c) eqn:E1, (2 * (a' mod c) <? c) eqn:E1';
    destruct (c <? 2 * (a mod c)) eqn:E2, (c <? 2 * (a' mod c)) eqn:E2';
    destruct (Z.even (a / c)); lia.
  - transitivity (a / c + 1).
    + apply round_half_even_le; [lia|].
      pose proof (Z.div_mod a c ltac:(lia)).
      pose proof (Z.mod_pos_bound a c Hc). nia.
    + apply round_half_even_ge; [lia|].
      pose proof (Z.div_mod a' c ltac:(lia)).
      pose proof (Z.mod_pos_bound a' c Hc). nia.
Qed.

Lemma round_half_even_exact k c : 0 < c -> round_half_even (k * c) c = k.
Proof.
  intros Hc.
  pose proof (round_half_even_le (k * c) c k Hc ltac:(lia)).
  pose proof (round_half_even_ge (k * c) c k Hc ltac:(lia)). lia.
Qed.

(** ** Rounding to a double *)

Lemma ulp_pos q : 0 < ulp q.
Proof. unfold ulp. apply Z.pow_pos_nonneg; lia. Qed.

Lemma pow2_pos e : 0 <= e -> 0 < 2 ^ e.
Proof. intros. apply Z.pow_pos_nonneg; lia. Qed.

Lemma pow2_split e s : 0 <= s <= e -> 2 ^ e = 2 ^ (e - s) * 2 ^ s.
Proof. intros. rewrite <- Z.pow_add_r by lia. f_equal. lia. Qed.

(** Below a double's binade, every double is smaller than the quotient. *)
Lemma coarse_ulp q M e :
  0 <= q -> 0 <= M < 2 ^ prec -> 0 <= e ->
  e < Z.max 0 (Z.log2 q - (prec - 1)) ->
  M * 2 ^ e < 2 ^ (prec - 1) * ulp q /\ 2 ^ (prec - 1) * ulp q <= q.
Proof.
  intros Hq HM He Hs. unfold ulp, prec in *.
  set (s := Z.max 0 (Z.log2 q - (53 - 1))) in *.
  assert (Hl : Z.log2 q = s + 52) by lia.
  assert (0 < q) by (destruct (Z.eq_dec q 0); [subst; simpl in *; lia|lia]).
  pose proof (Z.log2_spec q ltac:(lia)) as [L1 _].
  rewrite Hl in L1. rewrite Z.pow_add_r in L1 by lia.
  split; [|lia].
  replace (53 - 1) with 52 by lia.
  rewrite (pow2_split s (e + 1)) by lia.
  rewrite Z.pow_add_r by lia.
  pose proof (pow2_pos e He). pose proof (pow2_pos (s - (e + 1)) ltac:(lia)).
  change (2 ^ 53) with (2 * 2 ^ 52) in HM.
  assert (0 < 2 ^ 52) by (apply pow2_pos; lia).
  change (2 ^ 1) with 2.
  nia.
Qed.

Lemma rnd_pos_le a b M e :
  0 <= a -> 0 < b -> 0 <= M < 2 ^ prec -> 0 <= e ->
  a <= M * 2 ^ e * b -> rnd_pos a b <= M * 2 ^ e.
Proof.
  intros Ha Hb HM He Hab. unfold rnd_pos.
  assert (Hq : 0 <= a / b) by (apply Z.div_pos; lia).
  pose proof (Z.div_mod a b ltac:(lia)) as E.
  pose proof (Z.mod_pos_bound a b Hb) as B.
  destruct (Z_lt_le_dec e (Z.max 0 (Z.log2 (a / b) - (prec - 1)))) as [C|C].
  - destruct (coarse_ulp (a / b) M e Hq HM He C). nia.
  - pose proof (ulp_pos (a / b)).
    unfold ulp in *. set (s := Z.max 0 _) in *.
    rewrite (pow2_split e s) in * by lia.
    set (g := 2 ^ s) in *.
    pose proof (round_half_even_le a (b * g) (M * 2 ^ (e - s)) ltac:(nia) ltac:(nia)).
    nia.
Qed.

Lemma rnd_pos_ge a b M e :
  0 <= a -> 0 < b -> 0 <= M < 2 ^ prec -> 0 <= e ->
  M * 2 ^ e * b <= a -> M * 2 ^ e <= rnd_pos a b.
Proof.
  intros Ha Hb HM He Hab. unfold rnd_pos.
  assert (Hq : 0 <= a / b) by (apply Z.div_pos; lia).
  pose proof (Z.div_mod a b ltac:(lia)) as E.
  pose proof (Z.mod_pos_bound a b Hb) as B.
  pose proof (ulp_pos (a / b)) as G.
  destruct (Z_lt_le_dec e (Z.max 0 (Z.log2 (a / b) - (prec - 1)))) as [C|C].
  - destruct (coarse_ulp (a / b) M e Hq HM He C) as [C1 C2].
    pose proof (round_half_even_ge a (b * ulp (a / b)) (2 ^ (prec - 1))
                  ltac:(nia) ltac:(nia)).
    nia.
  - unfold ulp in *. set (s := Z.max 0 _) in *.
    rewrite (pow2_split e s) in * by lia.
    set (g := 2 ^ s) in *.
    pose proof (round_half_even_ge a (b * g) (M * 2 ^ (e - s)) ltac:(nia) ltac:(nia)).
    nia.
Qed.


Lemma rnd_pos_nonneg a b : 0 <= a -> 0 < b -> 0 <= rnd_pos a b.
Proof.
  intros Ha Hb.
  pose proof (rnd_pos_ge a b 0 0 Ha Hb ltac:(unfold prec; lia) ltac:(lia) ltac:(lia)).
  lia.
Qed.

Lemma log2_succ_bound q : 0 <= q -> q + 1 <= 2 ^ (Z.log2 q + 1).
Proof.
  intros Hq. destruct (Z.eq_dec q 0) as [->|N]; [simpl; lia|].
  pose proof (Z.log2_spec q ltac:(lia)) as [_ L2].
  replace (Z.succ (Z.log2 q)) with (Z.log2 q + 1) in L2 by lia. lia.
Qed.

Lemma rnd_pos_mono a a' b :
  0 <= a -> a <= a' -> 0 < b -> rnd_pos a b <= rnd_pos a' b.
Proof.
  intros Ha Haa Hb.
  assert (Hq : 0 <= a / b) by (apply Z.div_pos; lia).
  pose proof (Z.div_le_mono a a' b Hb Haa) as D.
  pose proof (Z.log2_le_mono _ _ D) as LD.
  pose proof (Z.log2_nonneg (a / b)) as L0.
  destruct (Z.eq_dec (ulp (a / b)) (ulp (a' / b))) as [G|G].
  - unfold rnd_pos. rewrite <- G. pose proof (ulp_pos (a / b)).
    pose proof (round_half_even_mono a a' (b * ulp (a / b)) ltac:(nia) Haa). nia.
  - assert (Hl : Z.log2 (a / b) < Z.log2 (a' / b)).
    { destruct (Z.eq_dec (Z.log2 (a / b)) (Z.log2 (a' / b))) as [Q|Q]; [|lia].
      exfalso. apply G. unfold ulp. now rewrite Q. }
    assert (Hq' : 0 < a' / b).
    { destruct (Z.eq_dec (a' / b) 0) as [Q|Q]; [rewrite Q in Hl; simpl in Hl; lia|lia]. }
    pose proof (Z.div_mod a b ltac:(lia)) as E.
    pose proof (Z.mod_pos_bound a b Hb) as B.
    pose proof (Z.div_mod a' b ltac:(lia)) as E'.
    pose proof (Z.mod_pos_bound a' b Hb) as B'.
    pose proof (log2_succ_bound (a / b) Hq) as S1.
    pose proof (Z.log2_spec (a' / b) Hq') as [S2 _].
    assert (P1 : 1 < 2 ^ prec) by (unfold prec; lia).
    transitivity (1 * 2 ^ (Z.log2 (a / b) + 1)).
    + apply rnd_pos_le; try lia. nia.
    + transitivity (1 * 2 ^ (Z.log2 (a' / b))).
      * rewrite !Z.mul_1_l. apply Z.pow_le_mono_r; lia.
      * apply rnd_pos_ge; try lia. nia.
Qed.

(** Relative error of one rounding: half a unit in the last place. *)
Lemma rnd_pos_err a b :
  0 <= a -> 0 < b ->
  - (a + 2 ^ 52 * b) <= 2 ^ 53 * (rnd_pos a b * b - a) <= a + 2 ^ 52 * b.
Proof.
  intros Ha Hb.
  assert (Hq : 0 <= a / b) by (apply Z.div_pos; lia).
  pose proof (Z.div_mod a b ltac:(lia)) as E.
  pose proof (Z.mod_pos_bound a b Hb) as B.
  pose proof (ulp_pos (a / b)) as G.
  pose proof (round_half_even_near a (b * ulp (a / b)) ltac:(nia)) as N.
  unfold rnd_pos.
  set (r := round_half_even a (b * ulp (a / b))) in *.
  destruct (Z_lt_le_dec 0 (Z.max 0 (Z.log2 (a / b) - (prec - 1)))) as [C|C].
  - destruct (coarse_ulp (a / b) 0 0 Hq ltac:(unfold prec; lia) ltac:(lia) C) as [_ C2].
    unfold prec in C2. change (2 ^ (53 - 1)) with (2 ^ 52) in C2.
    assert (2 ^ 52 * (b * ulp (a / b)) <= a) by nia.
    set (g := ulp (a / b)) in *. lia.
  - assert (G1 : ulp (a / b) = 1).
    { unfold ulp. replace (Z.max 0 _) with 0 by lia. reflexivity. }
    rewrite G1 in *. lia.
Qed.

Lemma rnd_nonneg a b : 0 <= a -> 0 < b -> rnd a b = rnd_pos a b.
Proof.
  intros Ha Hb. unfold rnd.
  destruct (Z.eq_dec a 0) as [->|N].
  - simpl. unfold rnd_pos, round_half_even.
    rewrite Z.div_0_l by lia. pose proof (ulp_pos 0).
    rewrite Z.div_0_l, Z.mod_0_l by nia.
    replace (2 * 0 <? b * ulp 0) with true by (symmetry; apply Z.ltb_lt; nia). lia.
  - rewrite Z.sgn_pos, Z.abs_eq by lia. lia.
Qed.

Lemma scale_pos : 0 < scale.
Proof. unfold scale. apply pow2_pos. lia. Qed.

Lemma scale_big : 2 ^ 200 <= scale.
Proof. unfold scale. apply Z.pow_le_mono_r; lia. Qed.

Lemma check_finite_ok x : 0 <= x < overflow_threshold -> check_finite x = Ok x.
Proof.
  intros Hx. unfold check_finite. rewrite Z.abs_eq by lia.
  replace (x <? overflow_threshold) with true by (symmetry; apply Z.ltb_lt; lia).
  reflexivity.
Qed.

Lemma small_finite v : 0 <= v < 2 ^ prec -> 0 <= v * scale < overflow_threshold.
Proof.
  intros Hv. pose proof scale_pos. unfold overflow_threshold.
  assert (2 ^ prec <= 2 ^ 1024) by (apply Z.pow_le_mono_r; unfold prec; lia).
  nia.
Qed.

(** An integer below [2^53] is a double. *)
Lemma rnd_pos_int v : 0 <= v < 2 ^ prec -> rnd_pos (v * scale) 1 = v * scale.
Proof.
  intros Hv. pose proof scale_pos.
  pose proof (rnd_pos_le (v * scale) 1 v 1074 ltac:(nia) ltac:(lia) Hv ltac:(lia)
                ltac:(fold scale; lia)) as U.
  pose proof (rnd_pos_ge (v * scale) 1 v 1074 ltac:(nia) ltac:(lia) Hv ltac:(lia)
                ltac:(fold scale; lia)) as L.
  fold scale in U, L. lia.
Qed.

Lemma of_int_small i : 0 <= i < 2 ^ prec -> of_int i = Ok (i * scale).
Proof.
  intros Hi. unfold of_int. pose proof scale_pos.
  rewrite rnd_nonneg by nia. rewrite rnd_pos_int by assumption.
  apply check_finite_ok. now apply small_finite.
Qed.

(** The quotient of two non-negative [int]s is at most the numerator. *)
Lemma truediv_bound a b :
  0 <= a < 2 ^ prec -> 0 < b -> 0 <= rnd_pos (a * scale) b <= a * scale.
Proof.
  intros Ha Hb. pose proof scale_pos. split.
  - apply rnd_pos_nonneg; nia.
  - pose proof (rnd_pos_le (a * scale) b a 1074 ltac:(nia) Hb Ha ltac:(lia)) as U.
    fold scale in U. apply U. nia.
Qed.

Lemma int_truediv_pos a b :
  0 <= a < 2 ^ prec -> 0 < b ->
  int_truediv a b = Ok (rnd_pos (a * scale) b).
Proof.
  intros Ha Hb. unfold int_truediv. pose proof scale_pos.
  replace (b =? 0) with false by (symmetry; apply Z.eqb_neq; lia).
  rewrite Z.sgn_pos, Z.abs_eq, Z.mul_1_l by lia.
  rewrite rnd_nonneg by nia.
  apply check_finite_ok.
  pose proof (truediv_bound a b Ha Hb). pose proof (small_finite a Ha). lia.
Qed.


(** [int(a / b)] is the floor of the quotient, for operands of moderate size. *)
Lemma truediv_trunc a b :
  0 <= a -> 0 < b -> a + b <= 2 ^ 52 ->
  trunc (rnd_pos (a * scale) b) = a / b.
Proof.
  intros Ha Hb Hab. pose proof scale_pos as HS. pose proof scale_big as HB.
  assert (Hq : 0 <= a / b) by (apply Z.div_pos; lia).
  pose proof (Z.div_mod a b ltac:(lia)) as E.
  pose proof (Z.mod_pos_bound a b Hb) as B.
  assert (P52 : 2 ^ 53 = 2 * 2 ^ 52) by reflexivity.
  assert (Q53 : 0 <= a / b < 2 ^ prec) by (unfold prec; nia).
  pose proof (rnd_pos_ge (a * scale) b (a / b) 1074 ltac:(nia) Hb Q53 ltac:(lia)) as L.
  fold scale in L. specialize (L ltac:(nia)).
  pose proof (rnd_pos_err (a * scale) b ltac:(nia) Hb) as [_ U].
  set (R := rnd_pos (a * scale) b) in *.
  unfold trunc. rewrite Z.quot_div_nonneg by lia.
  symmetry. apply Z.div_unique with (r := R - a / b * scale); [|lia].
  left. split; [lia|].
  assert (2 ^ 52 * b < 2 ^ 52 * scale) by (assert (2 ^ 52 < 2 ^ 200) by (apply Z.pow_lt_mono_r; lia); nia).
  assert (H1 : 2 ^ 53 * (R * b - a * scale) < 2 ^ 53 * scale) by nia.
  assert (H2 : R * b < (a + 1) * scale) by lia.
  assert (H3 : (a + 1) * scale <= (a / b + 1) * b * scale) by nia.
  nia.
Qed.

Lemma mul_int i n X :
  0 <= i -> 0 <= n -> i * n < 2 ^ prec -> i < 2 ^ prec -> 0 <= X <= n * scale ->
  mul (i * scale) X = Ok (rnd_pos (i * scale * X) scale) /\
  0 <= rnd_pos (i * scale * X) scale <= i * n * scale.
Proof.
  intros Hi Hn Hin Hi' HX. pose proof scale_pos as HS.
  assert (B : 0 <= rnd_pos (i * scale * X) scale <= i * n * scale).
  { split; [apply rnd_pos_nonneg; nia|].
    pose proof (rnd_pos_le (i * scale * X) scale (i * n) 1074 ltac:(nia) HS
                  (conj (Z.mul_nonneg_nonneg _ _ Hi Hn) Hin) ltac:(lia)) as U.
    fold scale in U. apply U.
    replace (i * n * scale * scale) with (i * scale * (n * scale)) by ring.
    apply Z.mul_le_mono_nonneg_l; [nia|lia]. }
  split; [|exact B].
  unfold mul. rewrite rnd_nonneg by nia.
  apply check_finite_ok.
  pose proof (small_finite (i * n) (conj (Z.mul_nonneg_nonneg _ _ Hi Hn) Hin)). lia.
Qed.

(** The index [round(i * step)] is an integer nearest to [i * n / m]. *)
Lemma index_near n m i :
  1 <= n -> 1 <= m -> 0 <= i <= m -> n * m <= 2 ^ 48 ->
  let X := rnd_pos (n * scale) m in
  let P := rnd_pos (i * scale * X) scale in
  let idx := round_half_even P scale in
  - m <= 2 * (idx * m - i * n) <= m.
Proof.
  intros Hn Hm Hi Hnm X P idx.
  pose proof scale_pos as HS. pose proof scale_big as HB.
  set (S := scale) in *.
  assert (Hm48 : m <= 2 ^ 48) by nia.
  assert (Hn48 : n <= 2 ^ 48) by nia.
  assert (Hin : 0 <= i * n <= 2 ^ 48) by nia.
  assert (Him : 0 <= i * m <= 2 ^ 96).
  { change (2 ^ 96) with (2 ^ 48 * 2 ^ 48). nia. }
  pose proof (rnd_pos_err (n * S) m ltac:(nia) ltac:(lia)) as EX. fold X in EX.
  assert (HX0 : 0 <= X) by (apply rnd_pos_nonneg; nia).
  pose proof (rnd_pos_err (i * S * X) S ltac:(nia) HS) as EP. fold P in EP.
  pose proof (round_half_even_near P S HS) as EI. fold idx in EI.
  set (a := X * m - n * S) in *.
  set (b := P - i * X) in *.
  set (c := idx * S - P) in *.
  assert (Eq : (idx * m - i * n) * S = c * m + b * m + i * a) by (unfold a, b, c; ring).
  (* the error of the product, freed from the common factor S *)
  assert (EP' : - (i * X + 2 ^ 52) <= 2 ^ 53 * b <= i * X + 2 ^ 52).
  { replace (P * S - i * S * X) with (b * S) in EP by (unfold b; ring).
    replace (i * S * X + 2 ^ 52 * S) with ((i * X + 2 ^ 52) * S) in EP by ring.
    split.
    - apply Z.mul_le_mono_pos_r with (p := S); [lia|]. lia.
    - apply Z.mul_le_mono_pos_r with (p := S); [lia|]. lia. }
  assert (Ha : - (n * S) <= a <= n * S).
  { assert (2 ^ 52 * m <= 2 ^ 52 * (n * S)) by nia. lia. }
  assert (Hia : - (i * n * S + 2 ^ 52 * (i * m)) <= 2 ^ 53 * (i * a)
                <= i * n * S + 2 ^ 52 * (i * m)).
  { replace (i * n * S + 2 ^ 52 * (i * m)) with (i * (n * S + 2 ^ 52 * m)) by ring.
    replace (2 ^ 53 * (i * a)) with (i * (2 ^ 53 * a)) by ring.
    split; [|apply Z.mul_le_mono_nonneg_l; lia].
    replace (- (i * (n * S + 2 ^ 52 * m))) with (i * - (n * S + 2 ^ 52 * m)) by ring.
    apply Z.mul_le_mono_nonneg_l; lia. }
  assert (HiXm : i * X * m = i * a + i * n * S) by (unfold a; ring).
  assert (Hbm : - (2 * (i * n * S) + 2 ^ 52 * m) <= 2 ^ 53 * (b * m)
                <= 2 * (i * n * S) + 2 ^ 52 * m).
  { assert (- (i * n * S) <= i * a <= i * n * S).
    { replace (i * n * S) with (i * (n * S)) by ring.
      replace (- (i * (n * S))) with (i * - (n * S)) by ring.
      split; apply Z.mul_le_mono_nonneg_l; lia. }
    assert (- ((i * X + 2 ^ 52) * m) <= 2 ^ 53 * b * m <= (i * X + 2 ^ 52) * m).
    { replace (- ((i * X + 2 ^ 52) * m)) with (- (i * X + 2 ^ 52) * m) by ring.
      split; apply Z.mul_le_mono_nonneg_r; lia. }
    lia. }
  assert (Hsmall : - S < 2 * (b * m) + 2 * (i * a) < S).
  { assert (i * n * S <= 2 ^ 48 * S) by (apply Z.mul_le_mono_nonneg_r; lia).
    assert (2 ^ 52 * m + 2 ^ 52 * (i * m) <= 2 ^ 150).
    { change (2 ^ 150) with (2 ^ 52 * 2 ^ 98). 
      assert (m + i * m <= 2 ^ 98) by (change (2 ^ 98) with (4 * 2 ^ 96); lia). lia. }
    assert (2 ^ 150 < 2 ^ 200) by (apply Z.pow_lt_mono_r; lia).
    lia. }
  assert (Hc : - (m * S) <= 2 * (c * m) <= m * S).
  { replace (2 * (c * m)) with (2 * c * m) by ring.
    replace (- (m * S)) with (- S * m) by ring.
    replace (m * S) with (S * m) by ring.
    split; apply Z.mul_le_mono_nonneg_r; lia. }
  assert (F : - (m + 1) * S < 2 * (idx * m - i * n) * S < (m + 1) * S) by lia.
  destruct F as [F1 F2].
  apply Z.mul_lt_mono_pos_r in F1; [|exact HS].
  apply Z.mul_lt_mono_pos_r in F2; [|exact HS].
  lia.
Qed.

End F64Facts.

(** [F64] computes the quotient and the product of the library's binary64
    on the operands of the examples below. *)
Lemma f64_agrees_with_binary64 :
  forallb (fun p => Binary64Check.agree (fst p) (snd p))
          [(115, 14); (29, 14); (115, 2); (1, 2)] = true.
Proof. vm_compute. reflexivity. Qed.

(** ** Sequences *)

Module PyFacts.

Lemma mapM_ok {A B : Type} (f : A -> result B) (g : A -> B) (xs : list A) :
  (forall x, In x xs -> f x = Ok (g x)) -> mapM f xs = Ok (map g xs).
Proof.
  induction xs as [|x xs IH]; intros Hf; simpl; [reflexivity|].
  rewrite Hf by (now left). simpl.
  rewrite IH by (intros; apply Hf; now right). reflexivity.
Qed.

Lemma mapM_length {A B : Type} (f : A -> result B) (xs : list A) (ys : list B) :
  mapM f xs = Ok ys -> length ys = length xs.
Proof.
  revert ys. induction xs as [|x xs IH]; intros ys; simpl.
  - intros E. injection E as <-. reflexivity.
  - destruct (f x); simpl; [|discriminate].
    destruct (mapM f xs); simpl; [|discriminate].
    intros E. injection E as <-. simpl. f_equal. now apply IH.
Qed.

Lemma range_length n : length (Py.range n) = Z.to_nat n.
Proof. unfold Py.range. now rewrite length_map, length_seq. Qed.

Lemma in_range n i : In i (Py.range n) <-> 0 <= i < n.
Proof.
  unfold Py.range. rewrite in_map_iff. split.
  - intros (k & <- & Hk). apply in_seq in Hk. lia.
  - intros Hi. exists (Z.to_nat i). split; [lia|]. apply in_seq. lia.
Qed.

Lemma range_nth n (k : nat) : (k < Z.to_nat n)%nat -> nth_error (Py.range n) k = Some (Z.of_nat k).
Proof.
  intros Hk. unfold Py.range.
  rewrite nth_error_map, nth_error_seq.
  destruct (Nat.ltb_spec k (Z.to_nat n)); [reflexivity|lia].
Qed.

Lemma getitem_ok {A : Type} (l : list A) (i : Z) (x : A) :
  0 <= i -> nth_error l (Z.to_nat i) = Some x -> Py.getitem l i = Ok x.
Proof.
  intros Hi E. unfold Py.getitem.
  replace (i <? 0) with false by (symmetry; apply Z.ltb_ge; lia).
  replace (i <? 0) with false by (symmetry; apply Z.ltb_ge; lia).
  now rewrite E.
Qed.

Lemma getitem_map_range (f : Z -> Z) n i :
  0 <= i < n -> Py.getitem (map f (Py.range n)) i = Ok (f i).
Proof.
  intros Hi. apply getitem_ok; [lia|].
  rewrite nth_error_map, range_nth by lia. simpl. f_equal. f_equal. lia.
Qed.

Lemma slice_inside {A : Type} (l : list A) (a b : Z) :
  0 <= a <= b -> b <= Py.len l ->
  Py.slice l a b = firstn (Z.to_nat (b - a)) (skipn (Z.to_nat a) l).
Proof.
  intros Ha Hb. unfold Py.slice, Py.clamp.
  replace (a <? 0) with false by (symmetry; apply Z.ltb_ge; lia).
  replace (b <? 0) with false by (symmetry; apply Z.ltb_ge; lia).
  rewrite !Z.min_l by lia. reflexivity.
Qed.

(** Consecutive slices put end to end give back a prefix. *)
Lemma firstn_extend {A : Type} (l : list A) (a c : nat) :
  firstn a l ++ firstn c (skipn a l) = firstn (a + c) l.
Proof.
  revert l. induction a as [|a IH]; intros l; simpl; [reflexivity|].
  destruct l as [|x l]; simpl.
  - now rewrite firstn_nil.
  - now rewrite IH.
Qed.

Lemma concat_slices {A : Type} (l : list A) (b : nat -> nat) (n : nat) :
  b 0%nat = 0%nat -> (forall k, (k < n)%nat -> (b k <= b (S k))%nat) ->
  concat (map (fun k => firstn (b (S k) - b k) (skipn (b k) l)) (seq 0 n))
  = firstn (b n) l.
Proof.
  intros H0. induction n as [|n IH]; intros Hm.
  - simpl. now rewrite H0.
  - rewrite seq_S, map_app, concat_app. simpl.
    rewrite IH by (intros; apply Hm; lia).
    rewrite app_nil_r, firstn_extend. f_equal.
    specialize (Hm n ltac:(lia)). lia.
Qed.

End PyFacts.

(** ** The indices of [resize_list] *)

Module ResizeFacts.
Import F64 F64Facts PyFacts.

Lemma max_len_sq a b : 0 <= a <= max_len -> 0 <= b <= max_len -> a * b <= 2 ^ 48.
Proof. unfold max_len. change (2 ^ 48) with (2 ^ 24 * 2 ^ 24). nia. Qed.

Lemma max_len_prec a : a <= max_len -> a < 2 ^ prec.
Proof. unfold max_len, prec. assert (2 ^ 24 < 2 ^ 53) by (apply Z.pow_lt_mono_r; lia). lia. Qed.

Lemma round_nonneg x : 0 <= x -> round x = round_half_even x scale.
Proof.
  intros Hx. unfold round. destruct (Z.eq_dec x 0) as [->|N].
  - simpl. pose proof (round_half_even_exact 0 scale scale_pos) as E.
    simpl in E. now rewrite E.
  - rewrite Z.sgn_pos, Z.abs_eq by lia. lia.
Qed.

Lemma resize_step_float L T :
  1 < L <= max_len -> 1 < T ->
  resize_step L T = Ok (Py.Float (rnd_pos ((L - 1) * scale) (T - 1))).
Proof.
  intros HL HT. unfold resize_step.
  replace (1 <? L) with true by (symmetry; apply Z.ltb_lt; lia).
  replace (1 <? T) with true by (symmetry; apply Z.ltb_lt; lia).
  simpl. rewrite int_truediv_pos; [reflexivity| |lia].
  pose proof (max_len_prec (L - 1) ltac:(lia)). lia.
Qed.

Lemma resize_step_degenerate L T :
  L <= 1 \/ T <= 1 -> resize_step L T = Ok (Py.Int 0).
Proof.
  intros D. unfold resize_step.
  destruct (Z.ltb_spec 1 L), (Z.ltb_spec 1 T); simpl; try reflexivity. lia.
Qed.

Lemma index_float L T i :
  1 < L <= max_len -> 1 < T <= max_len -> 0 <= i < T ->
  (p <- Py.int_mul i (Py.Float (rnd_pos ((L - 1) * scale) (T - 1))) ;; Ok (Py.round p))
  = Ok (float_index (L - 1) (T - 1) i).
Proof.
  intros HL HT Hi. unfold Py.int_mul.
  pose proof (max_len_prec (L - 1) ltac:(lia)) as PL.
  pose proof (max_len_prec i ltac:(lia)) as PI.
  pose proof (max_len_sq i (L - 1) ltac:(lia) ltac:(lia)) as PIL.
  assert (P48 : 2 ^ 48 < 2 ^ prec) by (apply Z.pow_lt_mono_r; unfold prec; lia).
  rewrite of_int_small by lia. simpl.
  pose proof (truediv_bound (L - 1) (T - 1) ltac:(lia) ltac:(lia)) as BX.
  destruct (mul_int i (L - 1) _ ltac:(lia) ltac:(lia) ltac:(lia) ltac:(lia) BX) as [E B].
  rewrite E. simpl. rewrite round_nonneg by lia. reflexivity.
Qed.

Lemma resize_indices_ok L T :
  L <= max_len -> T <= max_len ->
  resize_indices L T = Ok (map (resize_index L T) (Py.range T)).
Proof.
  intros HL HT. unfold resize_indices, resize_index.
  destruct (Z.ltb_spec 1 L) as [L1|L1]; destruct (Z.ltb_spec 1 T) as [T1|T1]; simpl;
    try (rewrite resize_step_degenerate by lia; simpl; apply mapM_ok;
         intros i _; simpl; f_equal; lia).
  rewrite resize_step_float by lia. simpl.
  apply mapM_ok. intros i Hi. apply in_range in Hi.
  now apply index_float.
Qed.

(** Without any bound on the sizes: a source or a target of one element. *)
Lemma resize_indices_degenerate L T :
  L <= 1 \/ T <= 1 ->
  resize_indices L T = Ok (repeat 0 (Z.to_nat T)).
Proof.
  intros D. unfold resize_indices. rewrite resize_step_degenerate by assumption.
  simpl. rewrite <- range_length, <- map_const.
  apply mapM_ok. intros i _. simpl. f_equal. lia.
Qed.

Lemma float_index_near n m i :
  1 <= n -> 1 <= m -> 0 <= i <= m -> n * m <= 2 ^ 48 ->
  - m <= 2 * (float_index n m i * m - i * n) <= m.
Proof. intros. now apply index_near. Qed.

Lemma float_index_mono n m i j :
  0 <= n -> 0 < m -> 0 <= i <= j ->
  float_index n m i <= float_index n m j.
Proof.
  intros Hn Hm Hij. unfold float_index. pose proof scale_pos.
  assert (0 <= rnd_pos (n * scale) m) by (apply rnd_pos_nonneg; nia).
  apply round_half_even_mono; [lia|].
  apply rnd_pos_mono; [nia| |lia].
  apply Z.mul_le_mono_nonneg_r; [lia|nia].
Qed.

Lemma resize_index_range L T i :
  1 <= L <= max_len -> T <= max_len -> 0 <= i < T ->
  0 <= resize_index L T i <= L - 1.
Proof.
  intros HL HT Hi. unfold resize_index.
  destruct (Z.ltb_spec 1 L) as [L1|L1]; destruct (Z.ltb_spec 1 T) as [T1|T1]; simpl; try lia.
  pose proof (max_len_sq (L - 1) (T - 1) ltac:(lia) ltac:(lia)).
  pose proof (float_index_near (L - 1) (T - 1) i ltac:(lia) ltac:(lia) ltac:(lia) ltac:(lia)).
  nia.
Qed.

Lemma resize_index_mono L T i j :
  1 <= L -> 0 <= i <= j -> resize_index L T i <= resize_index L T j.
Proof.
  intros HL Hij. unfold resize_index.
  destruct (Z.ltb_spec 1 L) as [L1|L1]; destruct (Z.ltb_spec 1 T) as [T1|T1]; simpl; try lia.
  apply float_index_mono; lia.
Qed.

(** The gather succeeds on indices within the source. *)
Lemma gather_ok {A : Type} (array : list A) (d : A) (f : Z -> Z) (js : list Z) :
  (forall j, In j js -> 0 <= f j < Py.len array) ->
  mapM (Py.getitem array) (map f js)
  = Ok (map (fun j => nth (Z.to_nat (f j)) array d) js).
Proof.
  intros Hf. induction js as [|j js IH]; simpl; [reflexivity|].
  pose proof (Hf j ltac:(now left)) as Hj.
  rewrite (getitem_ok array (f j) (nth (Z.to_nat (f j)) array d)); [|lia|].
  - simpl. rewrite IH by (intros; apply Hf; now right). reflexivity.
  - apply nth_error_nth'. unfold Py.len in Hj. lia.
Qed.

Lemma resize_list_ok {A : Type} (array : list A) (d : A) (T : Z) :
  1 <= Py.len array <= max_len -> 0 <= T <= max_len ->
  resize_list array T
  = Ok (map (fun i => nth (Z.to_nat (resize_index (Py.len array) T i)) array d)
            (Py.range T)).
Proof.
  intros HL HT. unfold resize_list.
  replace (T <? 0) with false by (symmetry; apply Z.ltb_ge; lia).
  rewrite resize_indices_ok by lia. simpl.
  apply gather_ok. intros i Hi. apply in_range in Hi.
  pose proof (resize_index_range (Py.len array) T i ltac:(lia) ltac:(lia) Hi). lia.
Qed.

Lemma resize_list_degenerate {A : Type} (x : A) (rest : list A) (T : Z) :
  0 <= T -> rest = [] \/ T = 1 ->
  resize_list (x :: rest) T = Ok (repeat x (Z.to_nat T)).
Proof.
  intros HT D. unfold resize_list.
  replace (T <? 0) with false by (symmetry; apply Z.ltb_ge; lia).
  rewrite resize_indices_degenerate.
  2:{ destruct D as [-> | ->]; [left; unfold Py.len; simpl; lia|right; lia]. }
  simpl. generalize (Z.to_nat T) as k. induction k as [|k IH]; simpl; [reflexivity|].
  rewrite IH. reflexivity.
Qed.

End ResizeFacts.

(** ** The blocks of [split_into_n_sublists] *)

Module SplitFacts.
Import F64 F64Facts PyFacts ResizeFacts.

Lemma boundary_0 L n : Spec.boundary L n 0 = 0.
Proof. unfold Spec.boundary. reflexivity. Qed.

Lemma boundary_n L n : 0 < n -> Spec.boundary L n n = L.
Proof. intros. unfold Spec.boundary. rewrite Z.mul_comm. apply Z.div_mul. lia. Qed.

Lemma boundary_mono L n j k :
  0 <= L -> 0 < n -> j <= k -> Spec.boundary L n j <= Spec.boundary L n k.
Proof. intros. unfold Spec.boundary. apply Z.div_le_mono; nia. Qed.

Lemma boundary_range L n k :
  0 <= L -> 0 < n -> 0 <= k <= n -> 0 <= Spec.boundary L n k <= L.
Proof.
  intros HL Hn Hk.
  pose proof (boundary_mono L n 0 k HL Hn ltac:(lia)) as B0.
  pose proof (boundary_mono L n k n HL Hn ltac:(lia)) as B1.
  rewrite boundary_0 in B0. rewrite boundary_n in B1 by lia. lia.
Qed.

(** Consecutive boundaries are [L / n] or [L / n + 1] apart. *)
Lemma boundary_step L n k :
  0 < n ->
  L / n <= Spec.boundary L n (k + 1) - Spec.boundary L n k <= L / n + 1.
Proof.
  intros Hn. unfold Spec.boundary.
  pose proof (Z.div_mod (k * L) n ltac:(lia)).
  pose proof (Z.mod_pos_bound (k * L) n Hn).
  pose proof (Z.div_mod ((k + 1) * L) n ltac:(lia)).
  pose proof (Z.mod_pos_bound ((k + 1) * L) n Hn).
  pose proof (Z.div_mod L n ltac:(lia)).
  pose proof (Z.mod_pos_bound L n Hn).
  nia.
Qed.

Lemma split_indices_ok L n :
  0 <= L <= max_len -> 1 <= n <= max_len ->
  split_indices L n = Ok (map (Spec.boundary L n) (Py.range (n + 1))).
Proof.
  intros HL Hn. unfold split_indices. apply mapM_ok.
  intros i Hi. apply in_range in Hi.
  pose proof (max_len_sq i L ltac:(lia) ltac:(lia)) as B.
  assert (P48 : 2 ^ 48 < 2 ^ prec) by (apply Z.pow_lt_mono_r; unfold prec; lia).
  rewrite int_truediv_pos by nia. simpl. f_equal.
  apply truediv_trunc; [nia|lia|].
  unfold max_len in *. change (2 ^ 52) with (2 ^ 48 + 15 * 2 ^ 48).
  assert (2 ^ 24 < 2 ^ 48) by (apply Z.pow_lt_mono_r; lia). lia.
Qed.

Lemma split_ok {A : Type} (l : list A) (n : Z) :
  Py.len l <= max_len -> 1 <= n <= max_len ->
  split_into_n_sublists l n = Ok (Spec.blocks l n).
Proof.
  intros HL Hn. unfold split_into_n_sublists.
  replace (n <=? 0) with false by (symmetry; apply Z.leb_gt; lia).
  assert (L0 : 0 <= Py.len l) by (unfold Py.len; lia).
  rewrite split_indices_ok by lia. simpl.
  apply mapM_ok. intros i Hi. apply in_range in Hi.
  rewrite !getitem_map_range by lia. simpl. f_equal.
  pose proof (boundary_range (Py.len l) n i L0 ltac:(lia) ltac:(lia)).
  pose proof (boundary_range (Py.len l) n (i + 1) L0 ltac:(lia) ltac:(lia)).
  pose proof (boundary_mono (Py.len l) n i (i + 1) L0 ltac:(lia) ltac:(lia)).
  apply slice_inside; lia.
Qed.

Lemma blocks_length {A : Type} (l : list A) (n : Z) :
  length (Spec.blocks l n) = Z.to_nat n.
Proof. unfold Spec.blocks. now rewrite length_map, range_length. Qed.

Lemma block_length {A : Type} (l : list A) (n k : Z) :
  0 < n -> 0 <= k < n ->
  Py.len (Spec.block l n k)
  = Spec.boundary (Py.len l) n (k + 1) - Spec.boundary (Py.len l) n k.
Proof.
  intros Hn Hk. unfold Spec.block, Py.len at 1.
  assert (L0 : 0 <= Py.len l) by (unfold Py.len; lia).
  pose proof (boundary_range (Py.len l) n k L0 Hn ltac:(lia)).
  pose proof (boundary_range (Py.len l) n (k + 1) L0 Hn ltac:(lia)).
  pose proof (boundary_mono (Py.len l) n k (k + 1) L0 Hn ltac:(lia)).
  rewrite length_firstn, length_skipn. unfold Py.len in *. lia.
Qed.

Lemma blocks_concat {A : Type} (l : list A) (n : Z) :
  0 < n -> concat (Spec.blocks l n) = l.
Proof.
  intros Hn. unfold Spec.blocks, Py.range. rewrite map_map.
  assert (L0 : 0 <= Py.len l) by (unfold Py.len; lia).
  set (b := fun k : nat => Z.to_nat (Spec.boundary (Py.len l) n (Z.of_nat k))).
  rewrite (map_ext_in _ (fun k => firstn (b (S k) - b k) (skipn (b k) l))).
  - rewrite concat_slices.
    + unfold b. rewrite Z2Nat.id by lia. rewrite boundary_n by lia.
      unfold Py.len. rewrite Nat2Z.id. apply firstn_all.
    + unfold b. change (Z.of_nat 0) with 0. now rewrite boundary_0.
    + intros k Hk. unfold b. apply Z2Nat.inj_le.
      * apply boundary_range; lia.
      * apply boundary_range; lia.
      * apply boundary_mono; lia.
  - intros k Hk. apply in_seq in Hk. unfold Spec.block, b.
    replace (Z.of_nat (S k)) with (Z.of_nat k + 1) by lia.
    pose proof (boundary_range (Py.len l) n (Z.of_nat k) L0 Hn ltac:(lia)).
    rewrite Z2Nat.inj_sub by lia. reflexivity.
Qed.

(** The last block runs to the end of the source and holds the ceiling of
    [L / n] elements. *)
Lemma boundary_last L n :
  0 < n -> L - Spec.boundary L n (n - 1) = (L + n - 1) / n.
Proof.
  intros Hn. unfold Spec.boundary.
  replace ((n - 1) * L) with (- L + L * n) by ring.
  rewrite Z.div_add by lia.
  replace (L + n - 1) with ((L - 1) + 1 * n) by ring.
  rewrite Z.div_add by lia.
  pose proof (Z.div_mod (- L) n ltac:(lia)).
  pose proof (Z.mod_pos_bound (- L) n Hn).
  pose proof (Z.div_mod (L - 1) n ltac:(lia)).
  pose proof (Z.mod_pos_bound (L - 1) n Hn).
  nia.
Qed.

End SplitFacts.

(** ** The resampler *)

Section ResamplerFacts.

Import F64 F64Facts PyFacts ResizeFacts SplitFacts.

Context {A : Type} `{Tensor A}.
Variable rng : Type.
Variable randn_like : A -> rng -> A * rng.

Lemma randn_like_seq_length (xs : list A) (g : rng) :
  length (fst (randn_like_seq rng randn_like xs g)) = length xs.
Proof.
  revert g. induction xs as [|x xs IH]; intros g; simpl; [reflexivity|].
  destruct (randn_like x g) as [y g1].
  specialize (IH g1). destruct (randn_like_seq rng randn_like xs g1) as [ys g2].
  simpl in *. now rewrite IH.
Qed.

Lemma block_mean_spec (u : list A) :
  u <> [] -> exists v, block_mean u = Ok v /\ Spec.mean u = Some v.
Proof.
  destruct u as [|x xs]; [congruence|]. intros _. eexists. split; reflexivity.
Qed.

Lemma mapM_block_mean (blocks : list (list A)) :
  (forall u, In u blocks -> u <> []) ->
  exists ys, mapM block_mean blocks = Ok ys /\
             length ys = length blocks /\
             forall k u, nth_error blocks k = Some u ->
                         exists v, nth_error ys k = Some v /\ Spec.mean u = Some v.
Proof.
  induction blocks as [|b bs IH]; intros Hne.
  - exists []. split; [reflexivity|]. split; [reflexivity|].
    intros [|k] u E; discriminate.
  - destruct (block_mean_spec b (Hne b ltac:(now left))) as (v & Ev & Sv).
    destruct (IH ltac:(intros; apply Hne; now right)) as (ys & Eys & Ly & Ny).
    exists (v :: ys). simpl. rewrite Ev. simpl. rewrite Eys. simpl.
    split; [reflexivity|]. split; [now rewrite Ly|].
    intros [|k] u E; simpl in *.
    + injection E as <-. now exists v.
    + now apply Ny.
Qed.

Lemma block_nonempty (x : list A) (T k : Z) :
  1 <= T <= Py.len x -> 0 <= k < T -> Spec.block x T k <> [].
Proof.
  intros HT Hk E.
  pose proof (block_length x T k ltac:(lia) Hk) as BL. rewrite E in BL.
  pose proof (boundary_step (Py.len x) T k ltac:(lia)) as [S1 _].
  assert (1 <= Py.len x / T) by (apply Z.div_le_lower_bound; lia).
  unfold Py.len in BL at 1. simpl in BL. lia.
Qed.

Lemma blocks_nth (x : list A) (T k : Z) :
  0 <= k < T -> nth_error (Spec.blocks x T) (Z.to_nat k) = Some (Spec.block x T k).
Proof.
  intros Hk. unfold Spec.blocks.
  rewrite nth_error_map, range_nth by lia. simpl. f_equal. f_equal. lia.
Qed.

Lemma downsamp_mean_ok (x : list A) (T : Z) :
  1 <= T <= Py.len x -> Py.len x <= max_len ->
  exists ys, downsamp_mean x T = Ok ys /\ Py.len ys = T /\
    forall k, 0 <= k < T ->
      exists v, nth_error ys (Z.to_nat k) = Some v /\
                Spec.mean (Spec.block x T k) = Some v.
Proof.
  intros HT HL. unfold downsamp_mean.
  rewrite split_ok by lia. simpl.
  destruct (mapM_block_mean (Spec.blocks x T)) as (ys & E & Ly & Ny).
  - intros u Hu. unfold Spec.blocks in Hu. apply in_map_iff in Hu.
    destruct Hu as (k & <- & Hk). apply in_range in Hk.
    now apply block_nonempty.
  - exists ys. split; [exact E|]. split.
    + unfold Py.len at 1. rewrite Ly, blocks_length. lia.
    + intros k Hk. apply Ny. now apply blocks_nth.
Qed.

Lemma policy_nearest noise T g :
  get_downtemp_noise rng randn_like noise "nearest" T g = (resize_list noise T, g).
Proof. reflexivity. Qed.

Lemma policy_blend noise T g :
  get_downtemp_noise rng randn_like noise "blend" T g = (downsamp_mean noise T, g).
Proof. reflexivity. Qed.

Lemma policy_blend_norm noise T g :
  get_downtemp_noise rng randn_like noise "blend_norm" T g
  = (r <- downsamp_mean noise T ;; Ok (normalized_noises r), g).
Proof. reflexivity. Qed.

Lemma policy_randn noise T g :
  get_downtemp_noise rng randn_like noise "randn" T g
  = match resize_list noise T with
    | Ok r => let (r', g') := randn_like_seq rng randn_like r g in (Ok r', g')
    | Raise e => (Raise e, g)
    end.
Proof. reflexivity. Qed.

End ResamplerFacts.

(** ** Real tensors: the normalisation of [normalized_noises] *)

Module RealTensorFacts.
Import RealTensor.
Local Open Scope R_scope.

Lemma zip_with_nth {X Y W : Type} (f : X -> Y -> W) xs ys n dx dy dw :
  (n < length xs)%nat -> length xs = length ys ->
  nth n (zip_with f xs ys) dw = f (nth n xs dx) (nth n ys dy).
Proof.
  intros Hn Hl. unfold zip_with.
  rewrite (nth_indep _ dw (f (fst (dx, dy)) (snd (dx, dy)))).
  - rewrite (map_nth (fun p => f (fst p) (snd p))).
    now rewrite combine_nth.
  - rewrite length_map, length_combine. lia.
Qed.

Lemma std_dim1_length ch : length (std_dim1 ch) = width ch.
Proof. unfold std_dim1. now rewrite length_map, length_seq. Qed.

Lemma std_dim1_nth ch w :
  (w < width ch)%nat -> nth w (std_dim1 ch) 0 = std (column ch w).
Proof.
  intros Hw. unfold std_dim1.
  rewrite (nth_indep _ 0 ((fun w => std (column ch w)) 0%nat))
    by (rewrite length_map, length_seq; lia).
  rewrite (map_nth (fun w => std (column ch w))).
  now rewrite seq_nth.
Qed.

Lemma shape_channel C H W x c :
  has_shape C H W x -> (c < C)%nat ->
  length (nth c x []) = H /\ Forall (fun row => length row = W) (nth c x []).
Proof.
  intros [HC HF] Hc. rewrite Forall_forall in HF.
  apply HF. apply nth_In. lia.
Qed.

Lemma shape_width C H W x c :
  has_shape C H W x -> (c < C)%nat -> (0 < H)%nat -> width (nth c x []) = W.
Proof.
  intros Hs Hc HH. destruct (shape_channel C H W x c Hs Hc) as [L F].
  unfold width. destruct (nth c x []) as [|row ch]; [simpl in L; lia|].
  simpl. now inversion F.
Qed.

Lemma shape_row C H W x c h :
  has_shape C H W x -> (c < C)%nat -> (h < H)%nat ->
  length (nth h (nth c x []) []) = W.
Proof.
  intros Hs Hc Hh. destruct (shape_channel C H W x c Hs Hc) as [L F].
  rewrite Forall_forall in F. apply F. apply nth_In. lia.
Qed.

(** Entry by entry: the divisor of position [(c, h, w)] is the standard
    deviation of column [w] of channel [c], taken over the height. *)
Lemma entry_div_std1 C H W x c h w :
  has_shape C H W x -> (c < C)%nat -> (h < H)%nat -> (w < W)%nat ->
  entry (chw_div_std1 x) c h w
  = entry x c h w / std (column (nth c x []) w).
Proof.
  intros Hs Hc Hh Hw. unfold entry, chw_div_std1.
  destruct (shape_channel C H W x c Hs Hc) as [LH _].
  pose proof (shape_width C H W x c Hs Hc ltac:(lia)) as WW.
  pose proof (shape_row C H W x c h Hs Hc Hh) as LR.
  destruct Hs as [HC _].
  set (F := fun ch : channel => map (fun row => zip_with Rdiv row (std_dim1 ch)) ch).
  change (@nil (list R)) with (F []) at 1.
  rewrite (map_nth F).
  unfold F.
  set (G := fun row : list R => zip_with Rdiv row (std_dim1 (nth c x []))).
  change (@nil R) with (G []) at 1.
  rewrite (map_nth G). unfold G.
  rewrite (zip_with_nth Rdiv _ _ w 0 0 0).
  - rewrite std_dim1_nth by lia. reflexivity.
  - lia.
  - rewrite std_dim1_length. lia.
Qed.

(** The spatial variant, entry by entry. *)
Lemma entry_div_std_spatial C H W x c h w :
  has_shape C H W x -> (c < C)%nat -> (h < H)%nat -> (w < W)%nat ->
  entry (chw_div_std_spatial x) c h w
  = entry x c h w / std_spatial (nth c x []).
Proof.
  intros Hs Hc Hh Hw. unfold entry, chw_div_std_spatial.
  set (F := fun ch : channel => map (map (fun v => v / std_spatial ch)) ch).
  change (@nil (list R)) with (F []) at 1.
  rewrite (map_nth F). unfold F.
  set (G := map (fun v => v / std_spatial (nth c x []))).
  change (@nil R) with (G []) at 1.
  rewrite (map_nth G). unfold G.
  rewrite (nth_indep _ 0 ((fun v => v / std_spatial (nth c x [])) 0)).
  - now rewrite (map_nth (fun v => v / std_spatial (nth c x []))).
  - rewrite length_map. rewrite (shape_row C H W x c h Hs Hc Hh). lia.
Qed.

Lemma column_div_std1 C H W x c w :
  has_shape C H W x -> (c < C)%nat -> (0 < H)%nat -> (w < W)%nat ->
  column (nth c (chw_div_std1 x) []) w
  = map (fun v => v / std (column (nth c x []) w)) (column (nth c x []) w).
Proof.
  intros Hs Hc HH Hw. unfold chw_div_std1.
  destruct (shape_channel C H W x c Hs Hc) as [LH FR].
  pose proof (shape_width C H W x c Hs Hc HH) as WW.
  set (F := fun ch : channel => map (fun row => zip_with Rdiv row (std_dim1 ch)) ch).
  change (@nil (list R)) with (F []) at 1.
  rewrite (map_nth F). unfold F, column. rewrite !map_map.
  apply map_ext_in. intros row Hrow.
  rewrite Forall_forall in FR. specialize (FR row Hrow).
  rewrite (zip_with_nth Rdiv _ _ w 0 0 0).
  - now rewrite std_dim1_nth by lia.
  - lia.
  - rewrite std_dim1_length. lia.
Qed.

Lemma rsum_scale (v : list R) (s : R) :
  rsum (map (fun x => x / s) v) = rsum v / s.
Proof.
  induction v as [|x v IH]; simpl; [unfold Rdiv; ring|].
  rewrite IH. unfold Rdiv. ring.
Qed.

Lemma rsum_squares_nonneg (v : list R) (m : R) :
  0 <= rsum (map (fun x => (x - m) ^ 2) v).
Proof.
  induction v as [|x v IH]; simpl; [lra|].
  pose proof (pow2_ge_0 (x - m)). simpl in *. lra.
Qed.

Lemma rsum_squares_scale (v : list R) (m s : R) :
  rsum (map (fun x => (x - m / s) ^ 2) (map (fun x => x / s) v))
  = rsum (map (fun x => (x - m) ^ 2) v) * (/ s) ^ 2.
Proof.
  induction v as [|x v IH]; simpl; [ring|].
  simpl in IH. rewrite IH. unfold Rdiv. ring.
Qed.

(** Dividing the values by [s > 0] divides their standard deviation by [s]. *)
Lemma std_scale (v : list R) (s : R) :
  (2 <= length v)%nat -> 0 < s ->
  std (map (fun x => x / s) v) = std v / s.
Proof.
  intros Hn Hs. unfold std.
  assert (Em : mean (map (fun x => x / s) v) = mean v / s).
  { unfold mean. rewrite length_map, rsum_scale. unfold Rdiv. ring. }
  rewrite Em, rsum_squares_scale, length_map.
  assert (Hd : 0 < INR (length v) - 1).
  { apply le_INR in Hn. simpl in Hn. lra. }
  set (Q := rsum (map (fun x => (x - mean v) ^ 2) v)).
  assert (HQ : 0 <= Q) by apply rsum_squares_nonneg.
  replace (Q * (/ s) ^ 2 / (INR (length v) - 1))
    with (Q / (INR (length v) - 1) * (/ s) ^ 2) by (unfold Rdiv; ring).
  rewrite sqrt_mult_alt.
  - rewrite sqrt_pow2; [reflexivity|].
    left. now apply Rinv_0_lt_compat.
  - apply Rmult_le_pos; [exact HQ|]. left. now apply Rinv_0_lt_compat.
Qed.

Lemma std_nonneg (v : list R) : 0 <= std v.
Proof. unfold std. apply sqrt_pos. Qed.

(** After the division, every column with at least two values and a
    non-zero deviation has standard deviation 1. *)
Lemma column_unit_std C H W x c w :
  has_shape C H W x -> (c < C)%nat -> (2 <= H)%nat -> (w < W)%nat ->
  std (column (nth c x []) w) <> 0 ->
  std (column (nth c (chw_div_std1 x) []) w) = 1.
Proof.
  intros Hs Hc HH Hw Hnz.
  rewrite (column_div_std1 C H W) by (assumption || lia).
  pose proof (std_nonneg (column (nth c x []) w)).
  rewrite std_scale.
  - now field.
  - unfold column. rewrite length_map.
    destruct (shape_channel C H W x c Hs Hc) as [LH _]. lia.
  - lra.
Qed.

(** The example field: its columns, over the height, deviate by 1 and 2;
    the whole channel deviates by the square root of 23/10. *)
Lemma std_column0 : std [0; 1; 2] = 1.
Proof.
  unfold std.
  replace (_ / _) with 1; [apply sqrt_1|].
  unfold mean, rsum. simpl. field.
Qed.

Lemma std_column1 : std [0; 2; 4] = 2.
Proof.
  unfold std.
  replace (_ / _) with (2 * 2); [apply sqrt_square; lra|].
  unfold mean, rsum. simpl. field.
Qed.

Lemma std_channel : std [0; 0; 1; 2; 2; 4] * std [0; 0; 1; 2; 2; 4] = 23 / 10.
Proof.
  unfold std.
  replace (_ / _) with (23 / 10); [apply sqrt_sqrt; lra|].
  unfold mean, rsum. simpl. field.
Qed.

Lemma field_3x2_shape : has_shape 1 3 2 field_3x2.
Proof.
  split; [reflexivity|].
  repeat constructor.
Qed.

End RealTensorFacts.

(** * The claims *)

Import F64 F64Facts PyFacts ResizeFacts SplitFacts.


Section IndexClaims.

Context {A : Type}.

(** An integer [k] within one half of [a / c] is the rounding of [a / c],
    unless [a / c] lies exactly halfway between two integers. *)
Lemma nearest_unique a c k :
  0 < c -> - c <= 2 * (k * c - a) <= c -> 2 * (a mod c) <> c ->
  k = round_half_even a c.
Proof.
  intros Hc Hk Ht. unfold round_half_even.
  pose proof (Z.div_mod a c ltac:(lia)) as E.
  pose proof (Z.mod_pos_bound a c Hc) as B.
  set (f := a / c) in *. set (r := a mod c) in *.
  assert (D : k = f \/ k = f + 1).
  { assert (f - 1 < k) by nia. assert (k < f + 2) by nia. lia. }
  destruct (2 * r <? c) eqn:E1.
  - apply Z.ltb_lt in E1. destruct D as [D|D]; [exact D|]. subst k. nia.
  - apply Z.ltb_ge in E1. assert (c < 2 * r) by lia.
    replace (c <? 2 * r) with true by (symmetry; apply Z.ltb_lt; lia).
    destruct D as [D|D]; [|exact D]. subst k. nia.
Qed.

(** C4 (amended).  For the nearest policy on a source of [L >= 1] elements
    with target [T] (both up to [max_len]), the index of output position
    [i] is Python's [round] of the double [i * step], where [step] is the
    double quotient [(L - 1) / (T - 1)]; the output is the gather of these
    indices.  Each index is within the source, is 0 when [L = 1] or
    [T = 1], and is an integer nearest to the exact [i * (L - 1) / (T - 1)]:
    it is [round] of the exact quotient whenever that quotient is not
    halfway between two integers. *)
Theorem nearest_indices_float (array : list A) (T : Z) :
  1 <= Py.len array <= max_len -> 0 <= T <= max_len ->
  exists out,
    resize_indices (Py.len array) T
      = Ok (map (resize_index (Py.len array) T) (Py.range T)) /\
    resize_list array T = Ok out /\
    Py.len out = T /\
    forall i, 0 <= i < T ->
      0 <= resize_index (Py.len array) T i < Py.len array /\
      nth_error out (Z.to_nat i)
        = nth_error array (Z.to_nat (resize_index (Py.len array) T i)) /\
      (Py.len array = 1 \/ T = 1 -> resize_index (Py.len array) T i = 0) /\
      (1 < Py.len array -> 1 < T ->
       - (T - 1) <= 2 * (resize_index (Py.len array) T i * (T - 1)
                         - i * (Py.len array - 1)) <= T - 1 /\
       (2 * ((i * (Py.len array - 1)) mod (T - 1)) <> T - 1 ->
        resize_index (Py.len array) T i
        = Spec.nearest_index round_half_even (Py.len array) T i)).
Proof.
  intros HL HT.
  destruct array as [|d rest] eqn:Ea; [unfold Py.len in HL; simpl in HL; lia|].
  rewrite <- Ea in *. clear Ea.
  eexists. split; [apply resize_indices_ok; lia|].
  split; [apply (resize_list_ok array d T HL HT)|].
  split; [unfold Py.len at 1; rewrite length_map, range_length; lia|].
  intros i Hi.
  pose proof (resize_index_range (Py.len array) T i ltac:(lia) ltac:(lia) Hi) as R.
  split; [lia|]. split.
  { rewrite nth_error_map, range_nth by lia. simpl. rewrite Z2Nat.id by lia.
    symmetry. apply nth_error_nth'. unfold Py.len in *. lia. }
  split.
  { intros D. unfold resize_index.
    destruct (Z.ltb_spec 1 (Py.len array)), (Z.ltb_spec 1 T); simpl; lia. }
  intros L1 T1.
  assert (N : - (T - 1) <= 2 * (resize_index (Py.len array) T i * (T - 1)
                                - i * (Py.len array - 1)) <= T - 1).
  { unfold resize_index.
    replace (1 <? Py.len array) with true by (symmetry; apply Z.ltb_lt; lia).
    replace (1 <? T) with true by (symmetry; apply Z.ltb_lt; lia). simpl.
    apply float_index_near; try lia.
    apply max_len_sq; lia. }
  split; [exact N|].
  intros NT. unfold Spec.nearest_index.
  replace (1 <? Py.len array) with true by (symmetry; apply Z.ltb_lt; lia).
  replace (1 <? T) with true by (symmetry; apply Z.ltb_lt; lia). simpl.
  apply nearest_unique; [lia|exact N|exact NT].
Qed.

(** C3 (amended).  For a sequence [l] of [L] elements and [n >= 1] (both up
    to [max_len]), [split_into_n_sublists] returns [n] blocks whose
    concatenation, in order, is [l]: no gap, no overlap.  Block [k] holds
    the elements from [floor(k * L / n)] up to [floor((k + 1) * L / n)], so
    every block has [floor(L / n)] or [floor(L / n) + 1] elements: the
    remainder is spread over the blocks, one element each.  The last block
    runs to the end of [l] and has [ceil(L / n)] elements. *)
Theorem split_partitions_source (l : list A) (n : Z) :
  1 <= n <= max_len -> Py.len l <= max_len ->
  exists blocks,
    split_into_n_sublists l n = Ok blocks /\
    Py.len blocks = n /\
    concat blocks = l /\
    (forall k, 0 <= k < n ->
       nth_error blocks (Z.to_nat k) = Some (Spec.block l n k) /\
       Py.len l / n <= Py.len (Spec.block l n k) <= Py.len l / n + 1) /\
    Spec.block l n (n - 1)
      = skipn (Z.to_nat (Spec.boundary (Py.len l) n (n - 1))) l /\
    Py.len (Spec.block l n (n - 1)) = (Py.len l + n - 1) / n.
Proof.
  intros Hn HL. exists (Spec.blocks l n).
  assert (L0 : 0 <= Py.len l) by (unfold Py.len; lia).
  split; [apply split_ok; lia|].
  split; [unfold Py.len at 1; rewrite blocks_length; lia|].
  split; [apply blocks_concat; lia|].
  split.
  { intros k Hk. split.
    - unfold Spec.blocks. rewrite nth_error_map, range_nth by lia.
      simpl. now rewrite Z2Nat.id by lia.
    - rewrite block_length by lia. apply boundary_step. lia. }
  pose proof (block_length l n (n - 1) ltac:(lia) ltac:(lia)) as BL.
  replace (n - 1 + 1) with n in BL by lia.
  rewrite boundary_n in BL by lia.
  split.
  - unfold Spec.block. replace (n - 1 + 1) with n by lia.
    rewrite boundary_n by lia.
    apply firstn_all2. rewrite length_skipn.
    pose proof (boundary_range (Py.len l) n (n - 1) L0 ltac:(lia) ltac:(lia)).
    unfold Py.len in *. lia.
  - rewrite BL. apply boundary_last. lia.
Qed.

(** C10.  For a source of [L >= 1] elements and a target [T >= 0] (both up
    to [max_len]), [resize_list] computes [T] indices, each within
    [0 .. L - 1] and in non-decreasing order, so that the gather succeeds;
    for [T = 0] the result is empty. *)
Theorem resize_indices_in_bounds (array : list A) (T : Z) :
  1 <= Py.len array <= max_len -> 0 <= T <= max_len ->
  exists indices,
    resize_indices (Py.len array) T = Ok indices /\
    Py.len indices = T /\
    (forall j, In j indices -> 0 <= j <= Py.len array - 1) /\
    (forall a b, (a <= b < length indices)%nat ->
                 nth a indices 0 <= nth b indices 0) /\
    (exists out, mapM (Py.getitem array) indices = Ok out /\
                 resize_list array T = Ok out) /\
    (T = 0 -> resize_list array T = Ok []).
Proof.
  intros HL HT.
  exists (map (resize_index (Py.len array) T) (Py.range T)).
  split; [apply resize_indices_ok; lia|].
  split; [unfold Py.len at 1; rewrite length_map, range_length; lia|].
  split.
  { intros j Hj. apply in_map_iff in Hj. destruct Hj as (i & <- & Hi).
    apply in_range in Hi. apply resize_index_range; lia. }
  split.
  { intros a b Hab. rewrite length_map, range_length in Hab.
    assert (N : forall k, (k < Z.to_nat T)%nat ->
              nth k (map (resize_index (Py.len array) T) (Py.range T)) 0
              = resize_index (Py.len array) T (Z.of_nat k)).
    { intros k Hk. apply nth_error_nth.
      now rewrite nth_error_map, range_nth. }
    rewrite !N by lia. apply resize_index_mono; lia. }
  destruct array as [|d rest]; [unfold Py.len in HL; simpl in HL; lia|].
  pose proof (resize_list_ok (d :: rest) d T HL HT) as E.
  split.
  { eexists. split; [|exact E].
    apply gather_ok. intros i Hi. apply in_range in Hi.
    pose proof (resize_index_range (Py.len (d :: rest)) T i ltac:(lia) ltac:(lia) Hi).
    lia. }
  intros ->. rewrite E. reflexivity.
Qed.

End IndexClaims.

Section ResamplerClaims.

Context {A : Type} `{Tensor A}.
Variable rng : Type.
Variable randn_like : A -> rng -> A * rng.

(** C1 (amended).  For a source of [L >= 1] elements and a target
    [T >= 1], both up to [max_len]: the nearest and randn policies return
    exactly [T] elements whatever [L] is, and the blend and blend_norm
    policies return exactly [T] elements when [T <= L], that is when no
    block is empty. *)
Theorem resampler_length (noise : list A) (policy : String.string) (T : Z) (g : rng) :
  1 <= Py.len noise <= max_len -> 1 <= T <= max_len ->
  policy = "nearest" \/ policy = "randn" \/
  ((policy = "blend" \/ policy = "blend_norm") /\ T <= Py.len noise) ->
  exists out g',
    get_downtemp_noise rng randn_like noise policy T g = (Ok out, g') /\
    Py.len out = T.
Proof.
  intros HL HT HP.
  assert (RL : exists out, resize_list noise T = Ok out /\ Py.len out = T).
  { destruct noise as [|d rest]; [unfold Py.len in HL; simpl in HL; lia|].
    eexists. split; [apply (resize_list_ok _ d); lia|].
    unfold Py.len. rewrite length_map, range_length. lia. }
  destruct HP as [-> | [-> | [[-> | ->] HTL]]].
  - rewrite policy_nearest. destruct RL as (out & E & Lo). rewrite E. now exists out, g.
  - rewrite policy_randn. destruct RL as (out & E & Lo). rewrite E.
    pose proof (randn_like_seq_length rng randn_like out g) as RLn.
    destruct (randn_like_seq rng randn_like out g) as [out' g'].
    exists out', g'. split; [reflexivity|].
    simpl in RLn. unfold Py.len in *. lia.
  - rewrite policy_blend.
    destruct (downsamp_mean_ok noise T ltac:(lia) ltac:(lia)) as (ys & E & Ly & _).
    rewrite E. now exists ys, g.
  - rewrite policy_blend_norm.
    destruct (downsamp_mean_ok noise T ltac:(lia) ltac:(lia)) as (ys & E & Ly & _).
    rewrite E. simpl. exists (normalized_noises ys), g. split; [reflexivity|].
    unfold normalized_noises, Py.len in *. now rewrite length_map.
Qed.

(** C5.  For the nearest and randn policies, with a source of one element
    or a target of one element, the step is the integer 0: no division takes
    place, nothing is raised, and the output has the requested length (it
    repeats the first element of the source, for nearest).  This holds for
    sequences of any size. *)
Theorem degenerate_step_zero (x : A) (rest : list A) (T : Z) (g : rng) :
  1 <= T -> rest = [] \/ T = 1 ->
  resize_step (Py.len (x :: rest)) T = Ok (Py.Int 0) /\
  get_downtemp_noise rng randn_like (x :: rest) "nearest" T g
    = (Ok (repeat x (Z.to_nat T)), g) /\
  exists out g',
    get_downtemp_noise rng randn_like (x :: rest) "randn" T g = (Ok out, g') /\
    Py.len out = T.
Proof.
  intros HT D. split; [|split].
  - apply resize_step_degenerate.
    destruct D as [-> | ->]; [left; unfold Py.len; simpl; lia | right; lia].
  - rewrite policy_nearest.
    now rewrite resize_list_degenerate by (assumption || lia).
  - rewrite policy_randn.
    rewrite resize_list_degenerate by (assumption || lia).
    pose proof (randn_like_seq_length rng randn_like (repeat x (Z.to_nat T)) g) as RLn.
    destruct (randn_like_seq rng randn_like (repeat x (Z.to_nat T)) g) as [out' g'].
    exists out', g'. split; [reflexivity|].
    simpl in RLn. rewrite repeat_length in RLn. unfold Py.len. lia.
Qed.

(** C6.  For every policy name other than nearest, blend, blend_norm and
    randn (so for ["disabled"] too), the resampler returns the source
    sequence unchanged, raises nothing and leaves the generator alone. *)
Theorem unknown_policy_passthrough (noise : list A) (policy : String.string)
    (T : Z) (g : rng) :
  ~ In policy resampling_policies ->
  get_downtemp_noise rng randn_like noise policy T g = (Ok noise, g).
Proof.
  intros HP. unfold get_downtemp_noise.
  destruct (String.eqb_spec policy "nearest") as [->|_];
    [exfalso; apply HP; simpl; tauto|].
  destruct (String.eqb_spec policy "blend") as [->|_];
    [exfalso; apply HP; simpl; tauto|].
  destruct (String.eqb_spec policy "blend_norm") as [->|_];
    [exfalso; apply HP; simpl; tauto|].
  destruct (String.eqb_spec policy "randn") as [->|_];
    [exfalso; apply HP; simpl; tauto|].
  reflexivity.
Qed.

(** C2 (amended).  For a source of [L] elements and a target [T] with
    [1 <= T <= L] (up to [max_len]), the blend policy cuts the source into
    the [T] contiguous blocks with boundaries [b_k = floor(k * L / T)],
    which put end to end give the source back, and output element [k] is
    the arithmetic mean of block [k]. *)
Theorem blend_is_block_mean (x : list A) (T : Z) (g : rng) :
  1 <= T <= Py.len x -> Py.len x <= max_len ->
  exists ys,
    get_downtemp_noise rng randn_like x "blend" T g = (Ok ys, g) /\
    downsamp_mean x T = Ok ys /\
    Py.len ys = T /\
    split_into_n_sublists x T = Ok (Spec.blocks x T) /\
    concat (Spec.blocks x T) = x /\
    forall k, 0 <= k < T ->
      exists v, nth_error ys (Z.to_nat k) = Some v /\
                Spec.mean (Spec.block x T k) = Some v.
Proof.
  intros HT HL.
  destruct (downsamp_mean_ok x T HT HL) as (ys & E & Ly & Ny).
  exists ys. rewrite policy_blend, E.
  split; [reflexivity|]. split; [reflexivity|]. split; [exact Ly|].
  split; [apply split_ok; lia|]. split; [apply blocks_concat; lia|]. exact Ny.
Qed.

End ResamplerClaims.

(** ** Normalised blend and the mixer *)

Section NormClaims.

Import RealTensor RealTensorFacts.

Variable rng : Type.
Variable randn_like : chw -> rng -> chw * rng.

(** C7 (amended).  For the blend_norm policy ([1 <= T <= L], up to
    [max_len]), each output element is the corresponding blend element
    divided, entry by entry, by a standard deviation taken along axis 1 of
    the C x H x W element, the height: the divisor of entry [(c, h, w)] is
    the deviation of column [w] of channel [c] over its [H] rows, not that of
    the whole channel.  Every such column with a non-zero deviation (and
    [H >= 2]) has standard deviation 1 afterwards. *)
Theorem blend_norm_column_std (noise : list chw) (T : Z) (g : rng) :
  1 <= T <= Py.len noise -> Py.len noise <= max_len ->
  exists blend,
    downsamp_mean noise T = Ok blend /\
    get_downtemp_noise rng randn_like noise "blend_norm" T g
    = (Ok (map chw_div_std1 blend), g) /\
    Py.len (map chw_div_std1 blend) = T /\
    forall k x C H W,
      nth_error blend k = Some x -> has_shape C H W x ->
      nth_error (map chw_div_std1 blend) k = Some (chw_div_std1 x) /\
      (forall c h w, (c < C)%nat -> (h < H)%nat -> (w < W)%nat ->
         entry (chw_div_std1 x) c h w
         = (entry x c h w / std (column (nth c x []) w))%R) /\
      (forall c w, (c < C)%nat -> (2 <= H)%nat -> (w < W)%nat ->
         std (column (nth c x []) w) <> 0%R ->
         std (column (nth c (chw_div_std1 x) []) w) = 1%R).
Proof.
  intros HT HL.
  destruct (downsamp_mean_ok noise T HT HL) as (blend & E & Lb & _).
  exists blend. rewrite policy_blend_norm, E.
  split; [reflexivity|]. split; [reflexivity|].
  split; [unfold Py.len in *; now rewrite length_map|].
  intros k x C Hh W Ek Hs.
  split; [now rewrite nth_error_map, Ek|]. split.
  - intros c h w Hc Hhh Hw. now apply (entry_div_std1 C Hh W).
  - intros c w Hc H2 Hw Hnz. now apply (column_unit_std C Hh W).
Qed.

End NormClaims.

Lemma blend_of_one : downsamp_mean [field_3x2] 1 = Ok [field_3x2].
Proof.
  unfold downsamp_mean.
  rewrite split_ok by (unfold Py.len, max_len; simpl; lia).
  unfold field_3x2. simpl.
  change (Py.len (Spec.block [[[[0; 0]; [1; 2]; [2; 4]]]]%R 1 0)) with 1.
  do 5 f_equal; repeat (f_equal; try lra).
Qed.

Lemma blend_norm_column_std_witness :
  exists blend,
    downsamp_mean [field_3x2] 1 = Ok blend /\
    get_downtemp_noise unit no_randn [field_3x2] "blend_norm" 1 tt
    = (Ok (map RealTensor.chw_div_std1 blend), tt) /\
    Py.len (map RealTensor.chw_div_std1 blend) = 1 /\
    forall k x C H W,
      nth_error blend k = Some x -> RealTensor.has_shape C H W x ->
      nth_error (map RealTensor.chw_div_std1 blend) k
      = Some (RealTensor.chw_div_std1 x) /\
      (forall c h w, (c < C)%nat -> (h < H)%nat -> (w < W)%nat ->
         RealTensor.entry (RealTensor.chw_div_std1 x) c h w
         = (RealTensor.entry x c h w
            / RealTensor.std (RealTensor.column (nth c x []) w))%R) /\
      (forall c w, (c < C)%nat -> (2 <= H)%nat -> (w < W)%nat ->
         RealTensor.std (RealTensor.column (nth c x []) w) <> 0%R ->
         RealTensor.std (RealTensor.column (nth c (RealTensor.chw_div_std1 x) []) w)
         = 1%R).
Proof.
  apply (blend_norm_column_std unit no_randn [field_3x2] 1 tt).
  - unfold Py.len. simpl. lia.
  - unfold Py.len, max_len. simpl. lia.
Defined.

(** C7, as stated, fails: on the 3 x 2 example field (columns 0, 1, 2 and
    0, 2, 4), blend_norm divides the first column by 1 and the second by 2,
    while the deviation of the whole channel is the square root of 23/10.
    Entry (0, 1, 0) of the output is 1, not 1 over that root, and the
    output channel 0, 0, 1, 1, 2, 2 does not have standard deviation 1. *)
Lemma blend_norm_not_spatial_std :
  exists out,
    downsamp_mean [field_3x2] 1 = Ok [field_3x2] /\
    get_downtemp_noise unit no_randn [field_3x2] "blend_norm" 1 tt = (Ok [out], tt) /\
    RealTensor.entry out 0 1 0 = 1%R /\
    RealTensor.entry (RealTensor.chw_div_std_spatial field_3x2) 0 1 0 <> 1%R /\
    out <> RealTensor.chw_div_std_spatial field_3x2 /\
    RealTensor.std_spatial (nth 0 out []) <> 1%R.
Proof.
  exists (RealTensor.chw_div_std1 field_3x2).
  pose proof RealTensorFacts.field_3x2_shape as Sh.
  assert (E1 : RealTensor.entry (RealTensor.chw_div_std1 field_3x2) 0 1 0 = 1%R).
  { rewrite (RealTensorFacts.entry_div_std1 1 3 2) by (assumption || lia).
    change (RealTensor.column (nth 0 field_3x2 []) 0) with [0; 1; 2]%R.
    rewrite RealTensorFacts.std_column0. unfold RealTensor.entry. simpl. lra. }
  assert (E2 : RealTensor.entry (RealTensor.chw_div_std_spatial field_3x2) 0 1 0 <> 1%R).
  { rewrite (RealTensorFacts.entry_div_std_spatial 1 3 2) by (assumption || lia).
    change (RealTensor.std_spatial (nth 0 field_3x2 []))
      with (RealTensor.std [0; 0; 1; 2; 2; 4]%R).
    change (RealTensor.entry field_3x2 0 1 0) with 1%R.
    pose proof RealTensorFacts.std_channel as Q.
    pose proof (RealTensorFacts.std_nonneg [0; 0; 1; 2; 2; 4]%R) as P.
    set (s := RealTensor.std [0; 0; 1; 2; 2; 4]%R) in *.
    intros E.
    assert (s <> 0%R) by (intros Z0; rewrite Z0 in Q; lra).
    assert (s = 1%R) by (apply (f_equal (fun t => (t * s)%R)) in E; field_simplify in E; lra).
    subst s. rewrite H0 in Q. lra. }
  split; [apply blend_of_one|].
  split; [rewrite policy_blend_norm, blend_of_one; reflexivity|].
  split; [exact E1|]. split; [exact E2|]. split.
  - intros E. apply E2. rewrite <- E. exact E1.
  - assert (C : nth 0 (RealTensor.chw_div_std1 field_3x2) []
                = [[0; 0]; [1; 1]; [2; 2]]%R).
    { unfold RealTensor.chw_div_std1, field_3x2. simpl.
      unfold RealTensor.std_dim1, RealTensor.width. simpl.
      change (RealTensor.column [[0; 0]; [1; 2]; [2; 4]]%R 0) with [0; 1; 2]%R.
      change (RealTensor.column [[0; 0]; [1; 2]; [2; 4]]%R 1) with [0; 2; 4]%R.
      rewrite RealTensorFacts.std_column0, RealTensorFacts.std_column1.
      unfold RealTensor.zip_with. simpl.
      repeat (f_equal; try lra). }
    rewrite C. unfold RealTensor.std_spatial. simpl.
    intros E.
    assert (Q : (RealTensor.std [0; 0; 1; 1; 2; 2] * RealTensor.std [0; 0; 1; 1; 2; 2]
                 = 4 / 5)%R).
    { unfold RealTensor.std.
      replace (_ / _)%R with (4 / 5)%R; [apply sqrt_sqrt; lra|].
      unfold RealTensor.mean, RealTensor.rsum. simpl. field. }
    rewrite E in Q. lra.
Qed.

(** ** Noise Mixer *)

Section MixerClaims.

Variable rng : Type.
Variable randn : rng -> R * rng.

Lemma randn_like_length (x : list R) (g : rng) :
  length (fst (Mixer.randn_like rng randn x g)) = length x.
Proof.
  revert g. induction x as [|e x IH]; intros g; simpl; [reflexivity|].
  destruct (randn g) as [f g1]. specialize (IH g1).
  destruct (Mixer.randn_like rng randn x g1) as [fs g2]. simpl in *.
  now rewrite IH.
Qed.

Lemma mix_zero_entries (existing fresh : list R) :
  length fresh = length existing ->
  RealTensor.zip_with (fun e f => (sqrt (1 - 0) * e + sqrt 0 * f)%R) existing fresh
  = existing.
Proof.
  revert fresh. induction existing as [|e x IH]; intros [|f fs] L;
    simpl in *; try discriminate; try reflexivity.
  unfold RealTensor.zip_with in *. simpl. rewrite IH by lia.
  f_equal. rewrite Rminus_0_r, sqrt_1, sqrt_0. ring.
Qed.

(** C8.  The mix is sqrt(1 - d) * existing + sqrt(d) * fresh, entry by
    entry, and for degradation 0 the output of the Noise Mixer is its
    input, whatever the fresh noise is. *)
Theorem mix_zero_degradation (existing : list R) (d : R) (g : rng) :
  fst (Mixer.mix_new_noise rng randn existing d g)
  = RealTensor.zip_with (fun e f => (sqrt (1 - d) * e + sqrt d * f)%R)
      existing (fst (Mixer.randn_like rng randn existing g)) /\
  fst (Mixer.mix_new_noise rng randn existing 0 g) = existing.
Proof.
  unfold Mixer.mix_new_noise.
  pose proof (randn_like_length existing g) as L.
  destruct (Mixer.randn_like rng randn existing g) as [fresh g']. simpl in *.
  split; [reflexivity|]. now apply mix_zero_entries.
Qed.

End MixerClaims.

(** ** The claims on concrete inputs *)

Lemma resampler_length_witness :
  exists out g',
    get_downtemp_noise unit no_randn [field_3x2; field_3x2; field_3x2] "blend" 2 tt
    = (Ok out, g') /\ Py.len out = 2.
Proof.
  apply resampler_length.
  - unfold Py.len, max_len. simpl. lia.
  - unfold max_len. lia.
  - right. right. split; [now left|]. unfold Py.len. simpl. lia.
Defined.

(** C1, as stated, fails: blend on a source shorter than the target raises
    [ZeroDivisionError] on the first empty block. *)
Lemma blend_short_source_raises :
  fst (get_downtemp_noise unit no_randn [field_3x2] "blend" 2 tt)
  = Raise ZeroDivisionError /\
  ~ (exists out g',
       get_downtemp_noise unit no_randn [field_3x2] "blend" 2 tt = (Ok out, g') /\
       Py.len out = 2).
Proof.
  assert (E : get_downtemp_noise unit no_randn [field_3x2] "blend" 2 tt
              = (Raise ZeroDivisionError, tt)).
  { rewrite policy_blend. unfold downsamp_mean.
    rewrite split_ok by (unfold Py.len, max_len; simpl; lia). reflexivity. }
  rewrite E. split; [reflexivity|].
  intros (out & g' & E' & _). discriminate.
Qed.

Lemma blend_is_block_mean_witness :
  exists ys,
    get_downtemp_noise unit no_randn [field_3x2; field_3x2; field_3x2] "blend" 2 tt
    = (Ok ys, tt) /\
    downsamp_mean [field_3x2; field_3x2; field_3x2] 2 = Ok ys /\
    Py.len ys = 2 /\
    split_into_n_sublists [field_3x2; field_3x2; field_3x2] 2
    = Ok (Spec.blocks [field_3x2; field_3x2; field_3x2] 2) /\
    concat (Spec.blocks [field_3x2; field_3x2; field_3x2] 2)
    = [field_3x2; field_3x2; field_3x2] /\
    forall k, 0 <= k < 2 ->
      exists v, nth_error ys (Z.to_nat k) = Some v /\
                Spec.mean (Spec.block [field_3x2; field_3x2; field_3x2] 2 k) = Some v.
Proof.
  apply blend_is_block_mean.
  - unfold Py.len. simpl. lia.
  - unfold Py.len, max_len. simpl. lia.
Defined.

(** C2, as stated, fails: with one source element and a target of two,
    block 0 is empty, it has no mean, and [downsamp_mean] raises. *)
Lemma blend_empty_block_raises :
  Spec.block [field_3x2] 2 0 = [] /\
  Spec.mean (Spec.block [field_3x2] 2 0) = None /\
  downsamp_mean [field_3x2] 2 = Raise ZeroDivisionError.
Proof.
  split; [reflexivity|]. split; [reflexivity|].
  unfold downsamp_mean.
  rewrite split_ok by (unfold Py.len, max_len; simpl; lia). reflexivity.
Qed.

Lemma split_partitions_source_witness :
  exists blocks,
    split_into_n_sublists [0; 1; 2; 3; 4; 5; 6; 7] 3 = Ok blocks /\
    Py.len blocks = 3 /\
    concat blocks = [0; 1; 2; 3; 4; 5; 6; 7] /\
    (forall k, 0 <= k < 3 ->
       nth_error blocks (Z.to_nat k) = Some (Spec.block [0; 1; 2; 3; 4; 5; 6; 7] 3 k) /\
       Py.len [0; 1; 2; 3; 4; 5; 6; 7] / 3
       <= Py.len (Spec.block [0; 1; 2; 3; 4; 5; 6; 7] 3 k)
       <= Py.len [0; 1; 2; 3; 4; 5; 6; 7] / 3 + 1) /\
    Spec.block [0; 1; 2; 3; 4; 5; 6; 7] 3 (3 - 1)
    = skipn (Z.to_nat (Spec.boundary (Py.len [0; 1; 2; 3; 4; 5; 6; 7]) 3 (3 - 1)))
            [0; 1; 2; 3; 4; 5; 6; 7] /\
    Py.len (Spec.block [0; 1; 2; 3; 4; 5; 6; 7] 3 (3 - 1))
    = (Py.len [0; 1; 2; 3; 4; 5; 6; 7] + 3 - 1) / 3.
Proof.
  apply (split_partitions_source [0; 1; 2; 3; 4; 5; 6; 7] 3).
  - unfold max_len. lia.
  - unfold Py.len, max_len. simpl. lia.
Defined.

(** C3, as stated, fails in its last part: of the two remainder elements of
    8 = 3 * 2 + 2, the last block receives one and the middle block the
    other; the blocks have 2, 3 and 3 elements, not 2, 2 and 4. *)
Lemma split_remainder_spread :
  split_into_n_sublists [0; 1; 2; 3; 4; 5; 6; 7] 3
  = Ok [[0; 1]; [2; 3; 4]; [5; 6; 7]] /\
  map Py.len [[0; 1]; [2; 3; 4]; [5; 6; 7]] = [2; 3; 3] /\
  Spec.remainder_last_sizes 8 3 = [2; 2; 4] /\
  map Py.len [[0; 1]; [2; 3; 4]; [5; 6; 7]] <> Spec.remainder_last_sizes 8 3.
Proof.
  split; [vm_compute; reflexivity|]. split; [reflexivity|].
  split; [reflexivity|]. vm_compute. discriminate.
Qed.

Lemma nearest_indices_float_witness :
  exists out,
    resize_indices (Py.len [10; 20; 30]) 7
      = Ok (map (resize_index (Py.len [10; 20; 30]) 7) (Py.range 7)) /\
    resize_list [10; 20; 30] 7 = Ok out /\
    Py.len out = 7 /\
    forall i, 0 <= i < 7 ->
      0 <= resize_index (Py.len [10; 20; 30]) 7 i < Py.len [10; 20; 30] /\
      nth_error out (Z.to_nat i)
        = nth_error [10; 20; 30] (Z.to_nat (resize_index (Py.len [10; 20; 30]) 7 i)) /\
      (Py.len [10; 20; 30] = 1 \/ 7 = 1 -> resize_index (Py.len [10; 20; 30]) 7 i = 0) /\
      (1 < Py.len [10; 20; 30] -> 1 < 7 ->
       - (7 - 1) <= 2 * (resize_index (Py.len [10; 20; 30]) 7 i * (7 - 1)
                         - i * (Py.len [10; 20; 30] - 1)) <= 7 - 1 /\
       (2 * ((i * (Py.len [10; 20; 30] - 1)) mod (7 - 1)) <> 7 - 1 ->
        resize_index (Py.len [10; 20; 30]) 7 i
        = Spec.nearest_index F64.round_half_even (Py.len [10; 20; 30]) 7 i)).
Proof.
  apply (nearest_indices_float [10; 20; 30] 7).
  - unfold Py.len, max_len. simpl. lia.
  - unfold max_len. lia.
Defined.

(** C4, as stated, fails: for 116 source elements and a target of 15, the
    exact value for position 7 is 7 * 115 / 14 = 57.5, which [round] takes
    to 58 (and so does rounding half up), but the code takes the double
    7 * (115 / 14) = 57.49999999999999 and selects element 57.  With a
    target of 3, position 1 has the same exact value 115 / 2 = 57.5 and the
    code selects element 58: the index is not a function of the exact
    quotient. *)
Lemma nearest_index_not_exact_round :
  resize_list (Py.range 116) 15
  = Ok [0; 8; 16; 25; 33; 41; 49; 57; 66; 74; 82; 90; 99; 107; 115] /\
  Spec.nearest_index F64.round_half_even 116 15 7 = 58 /\
  Spec.nearest_index Spec.round_half_up 116 15 7 = 58 /\
  resize_list (Py.range 116) 3 = Ok [0; 58; 115] /\
  7 * (116 - 1) * (3 - 1) = 1 * (116 - 1) * (15 - 1).
Proof.
  repeat split; vm_compute; reflexivity.
Qed.

Lemma degenerate_step_zero_witness :
  resize_step (Py.len [field_3x2]) 4 = Ok (Py.Int 0) /\
  get_downtemp_noise unit no_randn [field_3x2] "nearest" 4 tt
    = (Ok (repeat field_3x2 (Z.to_nat 4)), tt) /\
  exists out g',
    get_downtemp_noise unit no_randn [field_3x2] "randn" 4 tt = (Ok out, g') /\
    Py.len out = 4.
Proof.
  apply degenerate_step_zero.
  - lia.
  - left. reflexivity.
Defined.

Lemma unknown_policy_passthrough_witness :
  get_downtemp_noise unit no_randn [field_3x2] "disabled" 13 tt
  = (Ok [field_3x2], tt).
Proof.
  apply unknown_policy_passthrough.
  simpl. intros [E | [E | [E | [E | []]]]]; discriminate.
Defined.

Lemma resize_indices_in_bounds_witness :
  exists indices,
    resize_indices (Py.len [10; 20; 30]) 7 = Ok indices /\
    Py.len indices = 7 /\
    (forall j, In j indices -> 0 <= j <= Py.len [10; 20; 30] - 1) /\
    (forall a b, (a <= b < length indices)%nat ->
                 nth a indices 0 <= nth b indices 0) /\
    (exists out, mapM (Py.getitem [10; 20; 30]) indices = Ok out /\
                 resize_list [10; 20; 30] 7 = Ok out) /\
    (7 = 0 -> resize_list [10; 20; 30] 7 = Ok []).
Proof.
  apply (resize_indices_in_bounds [10; 20; 30] 7).
  - unfold Py.len, max_len. simpl. lia.
  - unfold max_len. lia.
Defined.

(** * Further properties of the code *)

(** ** [resize_list]: which elements the nearest policy selects *)

Module NearestFacts.

Lemma resize_index_near L T i :
  1 < L <= max_len -> 1 < T <= max_len -> 0 <= i < T ->
  - (T - 1) <= 2 * (resize_index L T i * (T - 1) - i * (L - 1)) <= T - 1.
Proof.
  intros HL HT Hi. unfold resize_index.
  replace (1 <? L) with true by (symmetry; apply Z.ltb_lt; lia).
  replace (1 <? T) with true by (symmetry; apply Z.ltb_lt; lia). simpl.
  apply float_index_near; try lia. apply max_len_sq; lia.
Qed.

Lemma resize_index_first L T :
  L <= max_len -> T <= max_len -> resize_index L T 0 = 0.
Proof.
  intros HL HT.
  destruct (Z_lt_le_dec 1 L) as [L1|L1]; destruct (Z_lt_le_dec 1 T) as [T1|T1];
    try (unfold resize_index;
         destruct (Z.ltb_spec 1 L), (Z.ltb_spec 1 T); simpl; lia || reflexivity).
Qed.

Lemma resize_index_last L T :
  1 <= L <= max_len -> 2 <= T <= max_len -> resize_index L T (T - 1) = L - 1.
Proof.
  intros HL HT.
  destruct (Z_lt_le_dec 1 L) as [L1|L1].
  - pose proof (resize_index_near L T (T - 1) ltac:(lia) ltac:(lia) ltac:(lia)) as N.
    nia.
  - unfold resize_index. destruct (Z.ltb_spec 1 L); simpl; lia.
Qed.

(** With an integer stride [s = (L - 1) / (T - 1)], position [i] selects
    element [i * s]. *)
Lemma resize_index_stride L T s i :
  1 < L <= max_len -> 1 < T <= max_len -> L - 1 = s * (T - 1) -> 0 <= i < T ->
  resize_index L T i = i * s.
Proof.
  intros HL HT Hs Hi.
  pose proof (resize_index_near L T i HL HT Hi) as N. rewrite Hs in N.
  nia.
Qed.

Lemma half_window m d : 0 < m -> - m <= 2 * (d * m) <= m -> d = 0.
Proof. intros Hm Hd. nia. Qed.

Lemma resize_index_step L T i :
  1 < L <= max_len -> 1 < T <= max_len -> 0 <= i -> i + 1 < T ->
  (T <= L -> resize_index L T i < resize_index L T (i + 1)) /\
  (L <= T -> resize_index L T (i + 1) <= resize_index L T i + 1).
Proof.
  intros HL HT Hi Hi'.
  pose proof (resize_index_near L T i HL HT ltac:(lia)) as N.
  pose proof (resize_index_near L T (i + 1) HL HT ltac:(lia)) as N'.
  set (a := resize_index L T i) in *. set (b := resize_index L T (i + 1)) in *.
  destruct (Z.eq_dec L T) as [E|NE].
  - subst L.
    assert (a - i = 0) by (apply (half_window (T - 1)); lia).
    assert (b - (i + 1) = 0) by (apply (half_window (T - 1)); lia).
    lia.
  - split; intros C.
    + assert (D : 0 < 2 * ((b - a) * (T - 1))) by lia.
      destruct (Z_lt_le_dec a b) as [Lt|Ge]; [exact Lt|exfalso].
      assert ((b - a) * (T - 1) <= 0) by (apply Z.mul_nonpos_nonneg; lia). lia.
    + assert (D : 2 * ((b - a) * (T - 1)) < 4 * (T - 1)) by lia.
      destruct (Z_le_gt_dec b (a + 1)) as [Le|Gt]; [exact Le|exfalso].
      assert (2 * (T - 1) <= (b - a) * (T - 1)) by (apply Z.mul_le_mono_nonneg_r; lia).
      lia.
Qed.

Lemma resize_index_strict L T i j :
  1 <= T <= L -> L <= max_len -> 0 <= i -> i < j -> j < T ->
  resize_index L T i < resize_index L T j.
Proof.
  intros HT HL Hi Hij Hj.
  assert (G : forall k : nat,
             i + 1 + Z.of_nat k < T ->
             resize_index L T i < resize_index L T (i + 1 + Z.of_nat k)).
  { induction k as [|k IH]; intros Hk.
    - replace (i + 1 + Z.of_nat 0) with (i + 1) by lia.
      apply resize_index_step; lia.
    - specialize (IH ltac:(lia)).
      pose proof (resize_index_step L T (i + 1 + Z.of_nat k)
                    ltac:(lia) ltac:(lia) ltac:(lia) ltac:(lia)) as [St _].
      specialize (St ltac:(lia)).
      replace (i + 1 + Z.of_nat (S k)) with (i + 1 + Z.of_nat k + 1) by lia. lia. }
  specialize (G (Z.to_nat (j - i - 1)) ltac:(lia)).
  replace (i + 1 + Z.of_nat (Z.to_nat (j - i - 1))) with j in G by lia. exact G.
Qed.

(** When the target is at least as long as the source, consecutive indices
    differ by at most 1 and run from 0 to [L - 1]: every index is hit. *)
Lemma resize_index_onto L T j :
  1 <= L <= T -> T <= max_len -> 0 <= j < L ->
  exists i, 0 <= i < T /\ resize_index L T i = j.
Proof.
  intros HL HT Hj.
  destruct (Z.eq_dec L 1) as [->|L1].
  { exists 0. split; [lia|]. rewrite resize_index_first by (unfold max_len in *; lia). lia. }
  assert (G : forall k : nat, Z.of_nat k < T ->
             forall j, 0 <= j <= resize_index L T (Z.of_nat k) ->
             exists i, 0 <= i <= Z.of_nat k /\ resize_index L T i = j).
  { induction k as [|k IH]; intros Hk j' Hj'.
    - change (Z.of_nat 0) with 0 in *.
      rewrite resize_index_first in Hj' by lia.
      exists 0. split; [lia|]. rewrite resize_index_first by lia. lia.
    - pose proof (resize_index_step L T (Z.of_nat k)
                    ltac:(lia) ltac:(lia) ltac:(lia) ltac:(lia)) as [_ St].
      specialize (St ltac:(lia)).
      replace (Z.of_nat k + 1) with (Z.of_nat (S k)) in St by lia.
      destruct (Z.eq_dec j' (resize_index L T (Z.of_nat (S k)))) as [E|NE].
      + exists (Z.of_nat (S k)). split; [lia|now symmetry].
      + destruct (IH ltac:(lia) j' ltac:(lia)) as (i & Hi & Ei).
        exists i. split; [lia|exact Ei]. }
  destruct (G (Z.to_nat (T - 1)) ltac:(lia) j) as (i & Hi & Ei).
  - rewrite Z2Nat.id by lia. rewrite resize_index_last by lia. lia.
  - exists i. split; [lia|exact Ei].
Qed.

(** The output of [resize_list], position by position. *)
Lemma resize_list_nth {A : Type} (array : list A) (T : Z) :
  1 <= Py.len array <= max_len -> 0 <= T <= max_len ->
  exists out,
    resize_list array T = Ok out /\
    Py.len out = T /\
    forall i, 0 <= i < T ->
      nth_error out (Z.to_nat i)
      = nth_error array (Z.to_nat (resize_index (Py.len array) T i)).
Proof.
  intros HL HT.
  destruct array as [|d rest] eqn:Ea; [unfold Py.len in HL; simpl in HL; lia|].
  rewrite <- Ea in *. clear Ea.
  eexists. split; [apply (resize_list_ok array d T HL HT)|].
  split; [unfold Py.len at 1; rewrite length_map, range_length; lia|].
  intros i Hi.
  pose proof (resize_index_range (Py.len array) T i ltac:(lia) ltac:(lia) Hi) as R.
  rewrite nth_error_map, range_nth by lia. simpl. rewrite Z2Nat.id by lia.
  symmetry. apply nth_error_nth'. unfold Py.len in *. lia.
Qed.

End NearestFacts.

Section NearestExtras.

Import NearestFacts.

Context {A : Type}.

Lemma mapM_getitem_in (array : list A) (js : list Z) (out : list A) :
  mapM (Py.getitem array) js = Ok out -> forall y, In y out -> In y array.
Proof.
  revert out. induction js as [|j js IH]; intros out; simpl.
  - intros E. injection E as <-. intros y [].
  - destruct (Py.getitem array j) as [x|e] eqn:Ex; simpl; [|discriminate].
    destruct (mapM (Py.getitem array) js) as [xs|e]; simpl; [|discriminate].
    intros E. injection E as <-. intros y [<-|Hy]; [|now apply (IH xs)].
    unfold Py.getitem in Ex.
    destruct ((if j <? 0 then j + Py.len array else j) <? 0); [discriminate|].
    destruct (nth_error array _) as [x'|] eqn:En; [|discriminate].
    injection Ex as <-. eapply nth_error_In. exact En.
Qed.

(** X1.  Whatever the sizes, a result of [resize_list] has exactly [length]
    elements and each of them is an element of [array]: the function
    selects, it never builds a new element. *)
Theorem resize_list_selects (array : list A) (T : Z) (out : list A) :
  resize_list array T = Ok out ->
  0 <= T /\ Py.len out = T /\ forall y, In y out -> In y array.
Proof.
  unfold resize_list. destruct (T <? 0) eqn:ET; [discriminate|].
  apply Z.ltb_ge in ET.
  destruct (resize_indices (Py.len array) T) as [indices|e] eqn:EI; simpl; [|discriminate].
  intros E. split; [exact ET|]. split.
  - pose proof (mapM_length _ _ _ E) as L1.
    unfold resize_indices in EI.
    destruct (resize_step (Py.len array) T) as [step|e]; simpl in EI; [|discriminate].
    pose proof (mapM_length _ _ _ EI) as L2.
    rewrite range_length in L2. unfold Py.len. lia.
  - now apply (mapM_getitem_in array indices).
Qed.

(** X2.  A target equal to the length of the source gives the source back. *)
Theorem resize_list_same_length (array : list A) :
  Py.len array <= max_len -> resize_list array (Py.len array) = Ok array.
Proof.
  intros HL. destruct array as [|d rest] eqn:Ea; [reflexivity|].
  rewrite <- Ea in *.
  assert (L1 : 1 <= Py.len array) by (rewrite Ea; unfold Py.len; simpl; lia).
  rewrite (resize_list_ok array d) by lia. f_equal.
  apply nth_ext with (d := d) (d' := d).
  - rewrite length_map, range_length. unfold Py.len. lia.
  - intros k Hk. rewrite length_map, range_length in Hk.
    rewrite (nth_indep _ d ((fun i => nth (Z.to_nat (resize_index (Py.len array)
                                            (Py.len array) i)) array d) 0))
      by (rewrite length_map, range_length; lia).
    rewrite (map_nth (fun i => nth (Z.to_nat (resize_index (Py.len array)
                                     (Py.len array) i)) array d)).
    assert (N : nth k (Py.range (Py.len array)) 0 = Z.of_nat k).
    { apply nth_error_nth. apply range_nth. lia. }
    rewrite N. f_equal.
    destruct (Z.eq_dec (Py.len array) 1) as [E1|NE1].
    + rewrite E1 in *. unfold resize_index. simpl. lia.
    + rewrite (resize_index_stride (Py.len array) (Py.len array) 1) by lia. lia.
Qed.

(** X3.  With a target of at least two elements, the first output element
    is the first source element and the last output element is the last
    source element. *)
Theorem resize_list_endpoints (array : list A) (T : Z) :
  1 <= Py.len array <= max_len -> 2 <= T <= max_len ->
  exists out,
    resize_list array T = Ok out /\
    nth_error out 0 = nth_error array 0 /\
    nth_error out (Z.to_nat (T - 1)) = nth_error array (Z.to_nat (Py.len array - 1)).
Proof.
  intros HL HT.
  destruct (resize_list_nth array T HL ltac:(lia)) as (out & E & _ & P).
  exists out. split; [exact E|]. split.
  - pose proof (P 0 ltac:(lia)) as G.
    rewrite resize_index_first in G by lia. exact G.
  - pose proof (P (T - 1) ltac:(lia)) as G.
    rewrite resize_index_last in G by lia. exact G.
Qed.

(** X4.  When the target is not longer than the source, the selected
    indices are strictly increasing: no source element is selected twice. *)
Theorem downsampling_selects_distinct (L T : Z) :
  1 <= T <= L -> L <= max_len ->
  exists indices,
    resize_indices L T = Ok indices /\
    forall a b, (a < b < length indices)%nat -> nth a indices 0 < nth b indices 0.
Proof.
  intros HT HL. eexists. split; [apply resize_indices_ok; lia|].
  intros a b Hab. rewrite length_map, range_length in Hab.
  assert (N : forall k, (k < Z.to_nat T)%nat ->
            nth k (map (resize_index L T) (Py.range T)) 0
            = resize_index L T (Z.of_nat k)).
  { intros k Hk. apply nth_error_nth. now rewrite nth_error_map, range_nth. }
  rewrite !N by lia. apply resize_index_strict; lia.
Qed.

(** X5.  When the target is at least as long as the source, every element
    of the source appears in the output: upsampling drops nothing. *)
Theorem upsampling_keeps_every_element (array : list A) (T : Z) :
  1 <= Py.len array <= T -> T <= max_len ->
  exists out,
    resize_list array T = Ok out /\ forall x, In x array -> In x out.
Proof.
  intros HL HT.
  destruct (resize_list_nth array T ltac:(lia) ltac:(lia)) as (out & E & Lo & P).
  exists out. split; [exact E|].
  intros x Hx. apply In_nth_error in Hx. destruct Hx as (k & Hk).
  assert (Kk : (k < length array)%nat) by (apply nth_error_Some; congruence).
  destruct (resize_index_onto (Py.len array) T (Z.of_nat k) HL HT) as (i & Hi & Ei).
  { unfold Py.len. lia. }
  pose proof (P i Hi) as G.
  rewrite Ei, Nat2Z.id, Hk in G.
  eapply nth_error_In. exact G.
Qed.

(** X6.  When [T - 1] divides [L - 1], the nearest policy samples with the
    integer stride [s = (L - 1) / (T - 1)]: output position [i] is source
    element [i * s]. *)
Theorem integer_stride_sampling (array : list A) (T s : Z) :
  1 <= Py.len array <= max_len -> 2 <= T <= max_len ->
  Py.len array - 1 = s * (T - 1) ->
  exists out,
    resize_list array T = Ok out /\
    Py.len out = T /\
    forall i, 0 <= i < T ->
      nth_error out (Z.to_nat i) = nth_error array (Z.to_nat (i * s)).
Proof.
  intros HL HT Hs.
  destruct (resize_list_nth array T HL ltac:(lia)) as (out & E & Lo & P).
  exists out. split; [exact E|]. split; [exact Lo|].
  intros i Hi. rewrite (P i Hi). do 2 f_equal.
  destruct (Z.eq_dec (Py.len array) 1) as [E1|NE1].
  - assert (s = 0) by nia. subst s.
    unfold resize_index. rewrite E1. simpl. lia.
  - apply resize_index_stride; lia.
Qed.

(** X7.  Errors of [resize_list]: a negative length fails the assertion,
    and an empty source with a positive length raises [IndexError] (every
    index is 0 and there is no element 0). *)
Theorem resize_list_errors (array : list A) (T : Z) :
  (T < 0 -> resize_list array T = Raise AssertionError) /\
  (1 <= T -> resize_list (@nil A) T = Raise IndexError).
Proof.
  split; intros HT; unfold resize_list.
  - replace (T <? 0) with true by (symmetry; apply Z.ltb_lt; lia). reflexivity.
  - replace (T <? 0) with false by (symmetry; apply Z.ltb_ge; lia).
    rewrite resize_indices_degenerate by (left; unfold Py.len; simpl; lia).
    simpl. destruct (Z.to_nat T) as [|k] eqn:Ek; [lia|]. reflexivity.
Qed.

End NearestExtras.

(** ** [split_into_n_sublists] and [downsamp_mean]: blocks and their means *)

Section BlendExtras.

Context {A : Type} `{Tensor A}.
Variable rng : Type.
Variable randn_like : A -> rng -> A * rng.

(** When the resampler returns: nearest and randn always, blend and
    blend_norm on a source at least as long as the target. *)
Lemma get_downtemp_noise_ok (noise : list A) (policy : String.string) (T : Z) (g : rng) :
  1 <= Py.len noise <= max_len -> 1 <= T <= max_len ->
  policy = "nearest" \/ policy = "randn" \/
  ((policy = "blend" \/ policy = "blend_norm") /\ T <= Py.len noise) ->
  exists out g', get_downtemp_noise rng randn_like noise policy T g = (Ok out, g').
Proof.
  intros HL HT HP.
  assert (RL : exists out, resize_list noise T = Ok out).
  { destruct noise as [|d rest]; [unfold Py.len in HL; simpl in HL; lia|].
    eexists. apply (resize_list_ok _ d); lia. }
  destruct HP as [-> | [-> | [[-> | ->] HTL]]].
  - rewrite policy_nearest. destruct RL as (out & E). rewrite E. now exists out, g.
  - rewrite policy_randn. destruct RL as (out & E). rewrite E.
    destruct (randn_like_seq rng randn_like out g) as [out' g'].
    now exists out', g'.
  - rewrite policy_blend.
    destruct (downsamp_mean_ok noise T ltac:(lia) ltac:(lia)) as (ys & E & _).
    rewrite E. now exists ys, g.
  - rewrite policy_blend_norm.
    destruct (downsamp_mean_ok noise T ltac:(lia) ltac:(lia)) as (ys & E & _).
    rewrite E. simpl. now exists (normalized_noises ys), g.
Qed.

Lemma policy_other (noise : list A) (policy : String.string) (T : Z) (g : rng) :
  ~ In policy resampling_policies ->
  get_downtemp_noise rng randn_like noise policy T g = (Ok noise, g).
Proof.
  intros HP. unfold get_downtemp_noise.
  destruct (String.eqb_spec policy "nearest") as [->|_];
    [exfalso; apply HP; simpl; tauto|].
  destruct (String.eqb_spec policy "blend") as [->|_];
    [exfalso; apply HP; simpl; tauto|].
  destruct (String.eqb_spec policy "blend_norm") as [->|_];
    [exfalso; apply HP; simpl; tauto|].
  destruct (String.eqb_spec policy "randn") as [->|_];
    [exfalso; apply HP; simpl; tauto|].
  reflexivity.
Qed.

Lemma range_cons (T : Z) :
  1 <= T -> Py.range T = 0 :: map Z.of_nat (seq 1 (Z.to_nat T - 1)).
Proof.
  intros HT. unfold Py.range.
  destruct (Z.to_nat T) as [|k] eqn:Ek; [lia|].
  simpl. now rewrite Nat.sub_0_r.
Qed.

Lemma singleton_block (x : list A) (k : nat) (e : A) :
  nth_error x k = Some e -> firstn 1 (skipn k x) = [e].
Proof.
  revert k. induction x as [|a x IH]; intros [|k] E; simpl in *; try discriminate.
  - injection E as ->. reflexivity.
  - now apply IH.
Qed.

Lemma downsamp_mean_short (x : list A) (T : Z) :
  Py.len x < T -> T <= max_len -> downsamp_mean x T = Raise ZeroDivisionError.
Proof.
  intros HL HT.
  assert (L0 : 0 <= Py.len x) by (unfold Py.len; lia).
  unfold downsamp_mean. rewrite split_ok by lia. simpl.
  unfold Spec.blocks. rewrite range_cons by lia. simpl.
  assert (B : Spec.block x T 0 = []).
  { unfold Spec.block, Spec.boundary.
    replace (0 + 1) with 1 by lia.
    rewrite Z.mul_1_l, Z.div_small by lia. reflexivity. }
  rewrite B. reflexivity.
Qed.

(** X8.  A source shorter than the target makes the blend and blend_norm
    policies raise [ZeroDivisionError]: block 0 is empty, and its mean is
    [0 / 0]. *)
Theorem blend_upsampling_raises (x : list A) (T : Z) (g : rng) :
  Py.len x < T -> T <= max_len ->
  downsamp_mean x T = Raise ZeroDivisionError /\
  get_downtemp_noise rng randn_like x "blend" T g = (Raise ZeroDivisionError, g) /\
  get_downtemp_noise rng randn_like x "blend_norm" T g = (Raise ZeroDivisionError, g).
Proof.
  intros HL HT. pose proof (downsamp_mean_short x T HL HT) as E.
  split; [exact E|]. split.
  - now rewrite policy_blend, E.
  - now rewrite policy_blend_norm, E.
Qed.

(** X9.  A target that is not positive: blend and blend_norm raise
    [ValueError]; nearest and randn fail the assertion of [resize_list] on a
    negative target.  The generator is left as it was. *)
Theorem nonpositive_target_errors (x : list A) (T : Z) (g : rng) :
  T <= 0 ->
  get_downtemp_noise rng randn_like x "blend" T g = (Raise ValueError, g) /\
  get_downtemp_noise rng randn_like x "blend_norm" T g = (Raise ValueError, g) /\
  (T < 0 ->
   get_downtemp_noise rng randn_like x "nearest" T g = (Raise AssertionError, g) /\
   get_downtemp_noise rng randn_like x "randn" T g = (Raise AssertionError, g)).
Proof.
  intros HT.
  assert (E : downsamp_mean x T = Raise ValueError).
  { unfold downsamp_mean, split_into_n_sublists.
    replace (T <=? 0) with true by (symmetry; apply Z.leb_le; lia). reflexivity. }
  split; [now rewrite policy_blend, E|]. split; [now rewrite policy_blend_norm, E|].
  intros HN.
  assert (R : resize_list x T = Raise AssertionError).
  { unfold resize_list.
    replace (T <? 0) with true by (symmetry; apply Z.ltb_lt; lia). reflexivity. }
  split; [now rewrite policy_nearest, R|now rewrite policy_randn, R].
Qed.

(** X10.  With a target of one element, blend returns one element: the
    mean of the whole source. *)
Theorem blend_target_one_is_mean (x : list A) (g : rng) :
  1 <= Py.len x <= max_len ->
  exists v,
    Spec.mean x = Some v /\
    downsamp_mean x 1 = Ok [v] /\
    get_downtemp_noise rng randn_like x "blend" 1 g = (Ok [v], g).
Proof.
  intros HL.
  destruct (downsamp_mean_ok x 1 ltac:(lia) ltac:(lia)) as (ys & E & Ly & Ny).
  destruct (Ny 0 ltac:(lia)) as (v & Ev & Mv).
  assert (B : Spec.block x 1 0 = x).
  { unfold Spec.block, Spec.boundary.
    replace (0 + 1) with 1 by lia.
    rewrite Z.mul_1_l, Z.div_1_r. unfold Py.len. simpl.
    rewrite Z.sub_0_r, Nat2Z.id. apply firstn_all. }
  rewrite B in Mv. exists v. split; [exact Mv|].
  assert (Y : ys = [v]).
  { destruct ys as [|y [|y' ys]]; unfold Py.len in Ly; simpl in *; try lia.
    now injection Ev as ->. }
  subst ys. split; [exact E|]. now rewrite policy_blend, E.
Qed.

(** X11.  With a target equal to the length of the source, every block
    holds one element and output [k] is the mean of element [k] alone:
    [(0 + x_k) / 1]. *)
Theorem blend_same_length (x : list A) :
  1 <= Py.len x <= max_len ->
  downsamp_mean x (Py.len x) = Ok (map (fun e => div_int (radd 0 e) 1) x).
Proof.
  intros HL.
  destruct (downsamp_mean_ok x (Py.len x) ltac:(lia) ltac:(lia)) as (ys & E & Ly & Ny).
  rewrite E. f_equal. apply nth_error_ext. intros k.
  destruct (Nat.lt_ge_cases k (length x)) as [Lt|Ge].
  - destruct (Ny (Z.of_nat k) ltac:(unfold Py.len; lia)) as (v & Ev & Mv).
    rewrite Nat2Z.id in Ev. rewrite Ev, nth_error_map.
    destruct (nth_error x k) as [e|] eqn:Ek; [|apply nth_error_None in Ek; lia].
    simpl. rewrite <- Mv.
    assert (B : Spec.block x (Py.len x) (Z.of_nat k) = [e]).
    { unfold Spec.block, Spec.boundary.
      rewrite !Z.div_mul by lia.
      replace (Z.of_nat k + 1 - Z.of_nat k) with 1 by lia.
      rewrite Nat2Z.id. now apply singleton_block. }
    rewrite B. reflexivity.
  - rewrite (proj2 (nth_error_None _ _)) by (unfold Py.len in Ly; lia).
    symmetry. apply nth_error_None. now rewrite length_map.
Qed.

(** X12.  When the target divides the length of the source, [L = T * s],
    the blocks all have [s] elements: block [k] is the elements
    [k * s .. k * s + s - 1], and output [k] is their mean. *)
Theorem blend_equal_blocks (x : list A) (T s : Z) :
  1 <= T -> 1 <= s -> Py.len x = T * s -> Py.len x <= max_len ->
  exists ys,
    downsamp_mean x T = Ok ys /\
    forall k, 0 <= k < T ->
      Py.len (firstn (Z.to_nat s) (skipn (Z.to_nat (k * s)) x)) = s /\
      exists v, nth_error ys (Z.to_nat k) = Some v /\
                Spec.mean (firstn (Z.to_nat s) (skipn (Z.to_nat (k * s)) x)) = Some v.
Proof.
  intros HT Hs HL HM.
  destruct (downsamp_mean_ok x T ltac:(nia) ltac:(lia)) as (ys & E & Ly & Ny).
  exists ys. split; [exact E|]. intros k Hk.
  assert (Bk : forall j, Spec.boundary (Py.len x) T j = j * s).
  { intros j. unfold Spec.boundary. rewrite HL.
    replace (j * (T * s)) with (j * s * T) by ring. apply Z.div_mul. lia. }
  assert (B : Spec.block x T k = firstn (Z.to_nat s) (skipn (Z.to_nat (k * s)) x)).
  { unfold Spec.block. rewrite !Bk. do 2 f_equal. lia. }
  split.
  - rewrite <- B, block_length by lia. rewrite !Bk. lia.
  - destruct (Ny k Hk) as (v & Ev & Mv). exists v. now rewrite <- B.
Qed.

(** X13.  The blocks of [split_into_n_sublists] are all non-empty exactly
    when there are at most as many blocks as elements. *)
Theorem split_blocks_nonempty_iff (l : list A) (n : Z) :
  1 <= n <= max_len -> Py.len l <= max_len ->
  exists blocks,
    split_into_n_sublists l n = Ok blocks /\
    ((forall u, In u blocks -> u <> []) <-> n <= Py.len l).
Proof.
  intros Hn HL. exists (Spec.blocks l n). split; [apply split_ok; lia|].
  assert (L0 : 0 <= Py.len l) by (unfold Py.len; lia).
  split.
  - intros Hne. destruct (Z_le_gt_dec n (Py.len l)) as [Le|Gt]; [exact Le|exfalso].
    apply (Hne (Spec.block l n 0)).
    + unfold Spec.blocks. apply in_map. apply in_range. lia.
    + unfold Spec.block, Spec.boundary.
      replace (0 + 1) with 1 by lia.
      rewrite Z.mul_1_l, Z.div_small by lia. reflexivity.
  - intros Le u Hu. unfold Spec.blocks in Hu. apply in_map_iff in Hu.
    destruct Hu as (k & <- & Hk). apply in_range in Hk.
    now apply block_nonempty.
Qed.

(** X14.  Only the randn policy draws random numbers: under every other
    policy name the generator comes back in the state it was given. *)
Theorem only_randn_draws (noise : list A) (policy : String.string) (T : Z) (g : rng) :
  policy <> "randn" ->
  snd (get_downtemp_noise rng randn_like noise policy T g) = g.
Proof.
  intros HP. unfold get_downtemp_noise.
  destruct (String.eqb policy "nearest"); [reflexivity|].
  destruct (String.eqb policy "blend"); [reflexivity|].
  destruct (String.eqb policy "blend_norm"); [reflexivity|].
  destruct (String.eqb_spec policy "randn") as [E|_]; [contradiction|reflexivity].
Qed.

End BlendExtras.

(** ** [warp]: how the driver composes its steps *)

Section PipelineExtras.

Context {A : Type} `{Tensor A}.

Variable rng : Type.
Variable randn_like : A -> rng -> A * rng.
Variables device image frame flow flows warper field vis latent scalar : Type.
Variable get_torch_device : device.
Variable manual_seed : Z -> rng.
Variable RaftOpticalFlow : device -> String.string -> frame -> frame -> flow * flow.
Variable shape : image -> Z * Z * Z * Z.
Variable permute_frames : image -> list frame.
Variable NoiseWarper : Z -> Z -> Z -> device -> Z -> Z -> rng -> warper * rng.
Variable warper_noise : warper -> field.
Variable warper_call : warper -> flow -> flow -> rng -> warper * rng.
Variable interpolate_area : field -> Z -> field.
Variable field_scale : field -> Z -> field.
Variable to_float16 : field -> field.
Variable stack_flow : flow -> flow -> flows.
Variable to_element : field -> A.
Variable to_vis : list field -> Z -> vis.
Variable mix_new_noise : latent -> scalar -> rng -> latent * rng.
Variable unsqueeze0 : list A -> latent.
Variable permute_02134 : latent -> latent.
Variable squeeze0 : latent -> latent.

Lemma last_default_irrelevant {X : Type} (l : list X) (d d' : X) :
  l <> [] -> last l d = last l d'.
Proof.
  induction l as [|x l IH]; intros N; [congruence|].
  destruct l as [|y l]; [reflexivity|].
  change (last (y :: l) d = last (y :: l) d'). apply IH. discriminate.
Qed.

Lemma loop_invariant (raft_model : frame -> frame -> flow * flow)
    (downscale_factor : Z) (rest : list frame) (st0 : loop_state rng frame flows warper field) :
  let st := fold_left (loop_body rng frame flow flows warper field warper_noise warper_call
             interpolate_area field_scale to_float16 stack_flow
             raft_model downscale_factor) rest st0 in
  length (numpy_noises _ _ _ _ _ st)
  = (length (numpy_noises _ _ _ _ _ st0) + length rest)%nat /\
  length (numpy_flows _ _ _ _ _ st)
  = (length (numpy_flows _ _ _ _ _ st0) + length rest)%nat /\
  prev_video_frame _ _ _ _ _ st = last rest (prev_video_frame _ _ _ _ _ st0).
Proof.
  revert st0. induction rest as [|f rest IH]; intros st0; simpl.
  - repeat split; lia.
  - specialize (IH (loop_body rng frame flow flows warper field warper_noise warper_call
             interpolate_area field_scale to_float16 stack_flow
             raft_model downscale_factor st0 f)).
    simpl in IH. destruct IH as (I1 & I2 & I3).
    rewrite I1, I2, I3. unfold loop_body.
    destruct (raft_model _ f) as [dx dy].
    destruct (warper_call _ dx dy _) as [w' g']. simpl.
    rewrite !length_app. simpl.
    repeat split; try lia.
    destruct rest as [|f' rest]; [reflexivity|].
    apply last_default_irrelevant. discriminate.
Qed.

(** X15.  The loop over [video_frames[1:]] adds one noise snapshot and one
    flow pair per frame, and ends with the last frame as the previous one:
    after it there is one snapshot per input frame and one flow per pair of
    consecutive frames. *)
Theorem loop_counts (raft_model : frame -> frame -> flow * flow)
    (downscale_factor : Z) (rest : list frame) (st0 : loop_state rng frame flows warper field) :
  let st := fold_left (loop_body rng frame flow flows warper field warper_noise warper_call
             interpolate_area field_scale to_float16 stack_flow
             raft_model downscale_factor) rest st0 in
  length (numpy_noises _ _ _ _ _ st)
  = (length (numpy_noises _ _ _ _ _ st0) + length rest)%nat /\
  length (numpy_flows _ _ _ _ _ st)
  = (length (numpy_flows _ _ _ _ _ st0) + length rest)%nat /\
  prev_video_frame _ _ _ _ _ st = last rest (prev_video_frame _ _ _ _ _ st0).
Proof. apply loop_invariant. Qed.

(** X16.  [warp] needs two frames: with no frame, [video_frames[0]] raises
    [IndexError]; with a single frame no flow was computed and
    [np.stack(numpy_flows)] raises [ValueError]. *)
Theorem warp_needs_two_frames (images : image) (noise_channels : Z)
    (policy : String.string) (degradation : scalar) (T : Z)
    (latent_shape : String.string) (seed : Z) (g : rng) :
  (permute_frames images = [] ->
   fst (warp rng randn_like device image frame flow flows warper field vis latent scalar
        get_torch_device manual_seed RaftOpticalFlow shape permute_frames
        NoiseWarper warper_noise warper_call interpolate_area field_scale
        to_float16 stack_flow to_element to_vis mix_new_noise unsqueeze0
        permute_02134 squeeze0
        images noise_channels policy degradation T latent_shape seed g)
   = Raise IndexError) /\
  (forall f, permute_frames images = [f] ->
   fst (warp rng randn_like device image frame flow flows warper field vis latent scalar
        get_torch_device manual_seed RaftOpticalFlow shape permute_frames
        NoiseWarper warper_noise warper_call interpolate_area field_scale
        to_float16 stack_flow to_element to_vis mix_new_noise unsqueeze0
        permute_02134 squeeze0
        images noise_channels policy degradation T latent_shape seed g)
   = Raise ValueError).
Proof.
  split; [intros E | intros f E]; unfold warp;
    destruct (shape images) as [[[b h] w] c];
    destruct (NoiseWarper _ _ _ _ _ _ _) as [w0 g2]; rewrite E; reflexivity.
Qed.

Lemma warp_unfold (images : image) (noise_channels seed : Z) :
  (2 <= length (permute_frames images))%nat ->
  exists (snapshots : list field) (g2 : rng),
    length snapshots = length (permute_frames images) /\
    forall policy degradation T latent_shape g,
      warp rng randn_like device image frame flow flows warper field vis latent scalar
        get_torch_device manual_seed RaftOpticalFlow shape permute_frames
        NoiseWarper warper_noise warper_call interpolate_area field_scale
        to_float16 stack_flow to_element to_vis mix_new_noise unsqueeze0
        permute_02134 squeeze0
        images noise_channels policy degradation T latent_shape seed g
      = let (r, g3) :=
          get_downtemp_noise rng randn_like (map to_element snapshots) policy T g2 in
        match r with
        | Raise e => (Raise e, g3)
        | Ok downtemp =>
            let (mixed, g4) := mix_new_noise (unsqueeze0 downtemp) degradation g3 in
            (Ok (if String.eqb latent_shape "BTCHW" then permute_02134 mixed
                 else if String.eqb latent_shape "BCHW" then squeeze0 mixed
                 else mixed,
                 to_vis snapshots (Z.min noise_channels 3)), g4)
        end.
Proof.
  intros H2.
  destruct (permute_frames images) as [|first rest] eqn:EF; [simpl in H2; lia|].
  destruct (shape images) as [[[b h] w] c] eqn:ES.
  destruct (NoiseWarper noise_channels (1 * h) (1 * w) get_torch_device 0 0
              (manual_seed seed)) as [w0 g2] eqn:EW.
  set (st0 := {| prev_video_frame := first;
                 the_warper := w0;
                 numpy_noises :=
                   [to_float16 (downscale_noise field interpolate_area field_scale
                                  (1 * 1 * 8) (warper_noise w0))];
                 numpy_flows := @nil flows;
                 generator := g2 |}).
  set (st := fold_left (loop_body rng frame flow flows warper field warper_noise warper_call
             interpolate_area field_scale to_float16 stack_flow
             (RaftOpticalFlow get_torch_device "large") (1 * 1 * 8))
                       rest st0).
  destruct (loop_invariant (RaftOpticalFlow get_torch_device "large") (1 * 1 * 8) rest st0)
    as (C1 & C2 & _).
  fold st in C1, C2. simpl in C1, C2.
  exists (numpy_noises _ _ _ _ _ st), (generator _ _ _ _ _ st).
  split; [simpl; lia|].
  intros policy degradation T latent_shape g.
  unfold warp. rewrite ES, EW, EF. fold st0. fold st.
  destruct (numpy_flows _ _ _ _ _ st) as [|fl fls] eqn:EN.
  - simpl in H2, C2. lia.
  - reflexivity.
Qed.

(** X17.  With two frames or more, [warp] captures one noise snapshot per
    frame, and what it returns is the resampler applied to these snapshots,
    then the mixer, then the layout; an exception of the resampler is the
    exception of [warp].  The snapshots, and with them the visualisation,
    depend on the images, the channel count and the seed only. *)
Theorem warp_composition (images : image) (noise_channels seed : Z) :
  (2 <= length (permute_frames images))%nat ->
  exists (snapshots : list field) (g2 : rng),
    length snapshots = length (permute_frames images) /\
    forall policy degradation T latent_shape g,
      warp rng randn_like device image frame flow flows warper field vis latent scalar
        get_torch_device manual_seed RaftOpticalFlow shape permute_frames
        NoiseWarper warper_noise warper_call interpolate_area field_scale
        to_float16 stack_flow to_element to_vis mix_new_noise unsqueeze0
        permute_02134 squeeze0
        images noise_channels policy degradation T latent_shape seed g
      = let (r, g3) :=
          get_downtemp_noise rng randn_like (map to_element snapshots) policy T g2 in
        match r with
        | Raise e => (Raise e, g3)
        | Ok downtemp =>
            let (mixed, g4) := mix_new_noise (unsqueeze0 downtemp) degradation g3 in
            (Ok (if String.eqb latent_shape "BTCHW" then permute_02134 mixed
                 else if String.eqb latent_shape "BCHW" then squeeze0 mixed
                 else mixed,
                 to_vis snapshots (Z.min noise_channels 3)), g4)
        end.
Proof. apply warp_unfold. Qed.

(** X18.  With 2 to [max_len] frames and a target of 1 to [max_len], [warp]
    returns a result under the nearest and randn policies and under any
    unknown policy name; under blend and blend_norm it does when the target
    is not larger than the number of frames. *)
Theorem warp_succeeds (images : image) (noise_channels seed : Z)
    (policy : String.string) (degradation : scalar) (T : Z)
    (latent_shape : String.string) (g : rng) :
  (2 <= length (permute_frames images))%nat ->
  Py.len (permute_frames images) <= max_len ->
  1 <= T <= max_len ->
  policy = "nearest" \/ policy = "randn" \/ ~ In policy resampling_policies \/
  ((policy = "blend" \/ policy = "blend_norm") /\ T <= Py.len (permute_frames images)) ->
  exists out v g',
    warp rng randn_like device image frame flow flows warper field vis latent scalar
        get_torch_device manual_seed RaftOpticalFlow shape permute_frames
        NoiseWarper warper_noise warper_call interpolate_area field_scale
        to_float16 stack_flow to_element to_vis mix_new_noise unsqueeze0
        permute_02134 squeeze0
        images noise_channels policy degradation T latent_shape seed g
    = (Ok (out, v), g').
Proof.
  intros H2 HM HT HP.
  destruct (warp_unfold images noise_channels seed H2) as (sn & g2 & Ls & R).
  rewrite R.
  assert (LE : Py.len (map to_element sn) = Py.len (permute_frames images)).
  { unfold Py.len. now rewrite length_map, Ls. }
  assert (E : exists out g3,
             get_downtemp_noise rng randn_like (map to_element sn) policy T g2
             = (Ok out, g3)).
  { destruct HP as [P | [P | [P | P]]].
    - apply get_downtemp_noise_ok; [unfold Py.len in *; lia | lia | tauto].
    - apply get_downtemp_noise_ok; [unfold Py.len in *; lia | lia | tauto].
    - exists (map to_element sn), g2. now apply policy_other.
    - apply get_downtemp_noise_ok; [unfold Py.len in *; lia | lia |].
      right. right. rewrite LE. exact P. }
  destruct E as (out & g3 & E). rewrite E.
  destruct (mix_new_noise (unsqueeze0 out) degradation g3) as [mixed g4].
  eexists. eexists. eexists. reflexivity.
Qed.

(** X19.  With the blend or blend_norm policy and fewer frames than the
    target count, [warp] raises [ZeroDivisionError]. *)
Theorem warp_blend_raises_on_short_video (images : image) (noise_channels seed : Z)
    (policy : String.string) (degradation : scalar) (T : Z)
    (latent_shape : String.string) (g : rng) :
  (2 <= length (permute_frames images))%nat ->
  Py.len (permute_frames images) < T -> T <= max_len ->
  policy = "blend" \/ policy = "blend_norm" ->
  fst (warp rng randn_like device image frame flow flows warper field vis latent scalar
        get_torch_device manual_seed RaftOpticalFlow shape permute_frames
        NoiseWarper warper_noise warper_call interpolate_area field_scale
        to_float16 stack_flow to_element to_vis mix_new_noise unsqueeze0
        permute_02134 squeeze0
        images noise_channels policy degradation T latent_shape seed g)
  = Raise ZeroDivisionError.
Proof.
  intros H2 HL HT HP.
  destruct (warp_unfold images noise_channels seed H2) as (sn & g2 & Ls & R).
  rewrite R.
  assert (LE : Py.len (map to_element sn) < T).
  { unfold Py.len in *. now rewrite length_map, Ls. }
  pose proof (downsamp_mean_short (map to_element sn) T LE HT) as B.
  destruct HP as [-> | ->];
    [rewrite policy_blend | rewrite policy_blend_norm]; rewrite B; reflexivity.
Qed.

(** X20.  The visualisation does not depend on the resampling policy, the
    target count, the degradation or the layout: two runs on the same
    images, channel count and seed that both return give the same
    visualisation. *)
Theorem warp_visualization_independent (images : image) (noise_channels seed : Z)
    (policy policy' : String.string) (degradation degradation' : scalar)
    (T T' : Z) (latent_shape latent_shape' : String.string) (g g' : rng)
    (out out' : latent) (v v' : vis) (h h' : rng) :
  (2 <= length (permute_frames images))%nat ->
  warp rng randn_like device image frame flow flows warper field vis latent scalar
        get_torch_device manual_seed RaftOpticalFlow shape permute_frames
        NoiseWarper warper_noise warper_call interpolate_area field_scale
        to_float16 stack_flow to_element to_vis mix_new_noise unsqueeze0
        permute_02134 squeeze0
        images noise_channels policy degradation T latent_shape seed g
  = (Ok (out, v), h) ->
  warp rng randn_like device image frame flow flows warper field vis latent scalar
        get_torch_device manual_seed RaftOpticalFlow shape permute_frames
        NoiseWarper warper_noise warper_call interpolate_area field_scale
        to_float16 stack_flow to_element to_vis mix_new_noise unsqueeze0
        permute_02134 squeeze0
        images noise_channels policy' degradation' T' latent_shape' seed g'
  = (Ok (out', v'), h') ->
  v = v'.
Proof.
  intros H2.
  destruct (warp_unfold images noise_channels seed H2) as (sn & g2 & Ls & R).
  rewrite !R.
  destruct (get_downtemp_noise rng randn_like (map to_element sn) policy T g2)
    as [[d|e] g3]; [|discriminate].
  destruct (mix_new_noise (unsqueeze0 d) degradation g3) as [m g4].
  destruct (get_downtemp_noise rng randn_like (map to_element sn) policy' T' g2)
    as [[d'|e'] g3']; [|discriminate].
  destruct (mix_new_noise (unsqueeze0 d') degradation' g3') as [m' g4'].
  intros E1 E2. injection E1 as _ <- _. injection E2 as _ <- _. reflexivity.
Qed.

End PipelineExtras.

(** ** The [str] branch of [split_into_n_sublists] *)

(** X21.  On a [str], [split_into_n_sublists] never returns: it raises
    [ValueError] for [n <= 0] and [TypeError] otherwise, since the blocks it
    joins are lists. *)
Theorem split_str_never_returns (l : String.string) (n : Z) :
  n <= max_len -> Py.len (String.list_ascii_of_string l) <= max_len ->
  (n <= 0 -> split_into_n_sublists_str l n = Raises ValueError) /\
  (1 <= n -> split_into_n_sublists_str l n = RaisesTypeError) /\
  (forall s, split_into_n_sublists_str l n <> Returns s).
Proof.
  intros Hn HL. unfold split_into_n_sublists_str.
  destruct (Z.leb_spec n 0) as [Le|Gt].
  - split; [reflexivity|]. split; [lia|]. discriminate.
  - rewrite split_ok by lia.
    assert (E : str_join (Spec.blocks (String.list_ascii_of_string l) n)
                = RaisesTypeError).
    { unfold Spec.blocks, Py.range.
      destruct (Z.to_nat n) as [|k] eqn:Ek; [lia|]. reflexivity. }
    rewrite E. split; [lia|]. split; [reflexivity|]. discriminate.
Qed.

(** ** The block mean on real tensors *)

Module MeanFacts.
Import RealTensor RealTensorFacts.
Local Open Scope R_scope.

Lemma entry_map3 (f : R -> R) (x : chw) C H W c h w :
  has_shape C H W x -> (c < C)%nat -> (h < H)%nat -> (w < W)%nat ->
  entry (map (map (map f)) x) c h w = f (entry x c h w).
Proof.
  intros Hs Hc Hh Hw. unfold entry.
  pose proof (shape_row C H W x c h Hs Hc Hh) as LR.
  change (@nil (list R)) with (map (map f) []) at 1.
  rewrite (map_nth (map (map f))).
  change (@nil R) with (map f []) at 1.
  rewrite (map_nth (map f)).
  rewrite (nth_indep _ 0 (f 0)).
  - now rewrite (map_nth f).
  - rewrite length_map. unfold channel in *. rewrite LR. exact Hw.
Qed.

Lemma shape_map3 (f : R -> R) (x : chw) C H W :
  has_shape C H W x -> has_shape C H W (map (map (map f)) x).
Proof.
  intros [HC HF]. split; [now rewrite length_map|].
  apply Forall_map. eapply Forall_impl; [|exact HF].
  intros ch [LH FR]. split; [now rewrite length_map|].
  apply Forall_map. eapply Forall_impl; [|exact FR].
  intros row LR. now rewrite length_map.
Qed.

Lemma zip_with_length {X Y V : Type} (f : X -> Y -> V) xs ys :
  length xs = length ys -> length (zip_with f xs ys) = length xs.
Proof.
  intros E. unfold zip_with. rewrite length_map, length_combine. lia.
Qed.

Lemma zip_with_forall {X Y V : Type} (f : X -> Y -> V) (P : X -> Prop)
    (Q : Y -> Prop) (S : V -> Prop) xs ys :
  (forall a b, P a -> Q b -> S (f a b)) ->
  Forall P xs -> Forall Q ys -> Forall S (zip_with f xs ys).
Proof.
  intros Hf Hx. revert ys. induction Hx as [|a xs Pa Hx IH]; intros ys Hy.
  - constructor.
  - destruct Hy as [|b ys Qb Hy]; [constructor|].
    unfold zip_with in *. simpl. constructor; [now apply Hf|now apply IH].
Qed.

Lemma shape_add (x y : chw) C H W :
  has_shape C H W x -> has_shape C H W y -> has_shape C H W (add x y).
Proof.
  intros [XC XF] [YC YF]. unfold chw, channel in *. split.
  - simpl. rewrite zip_with_length; congruence.
  - simpl.
    apply (zip_with_forall (zip_with (zip_with Rplus))
             (fun ch => length ch = H /\ Forall (fun row => length row = W) ch)
             (fun ch => length ch = H /\ Forall (fun row => length row = W) ch)
             (fun ch => length ch = H /\ Forall (fun row => length row = W) ch));
      [|exact XF|exact YF].
    intros a b [LA FA] [LB FB]. split.
    + rewrite zip_with_length; congruence.
    + apply (zip_with_forall (zip_with Rplus)
               (fun row => length row = W) (fun row => length row = W)
               (fun row => length row = W)); [|exact FA|exact FB].
      intros r r' Lr Lr'. rewrite zip_with_length; congruence.
Qed.

Lemma entry_add (x y : chw) C H W c h w :
  has_shape C H W x -> has_shape C H W y ->
  (c < C)%nat -> (h < H)%nat -> (w < W)%nat ->
  entry (add x y) c h w = entry x c h w + entry y c h w.
Proof.
  intros Hx Hy Hc Hh Hw. unfold entry. simpl.
  destruct (shape_channel C H W x c Hx Hc) as [LX _].
  destruct (shape_channel C H W y c Hy Hc) as [LY _].
  pose proof (shape_row C H W x c h Hx Hc Hh) as RX.
  pose proof (shape_row C H W y c h Hy Hc Hh) as RY.
  destruct Hx as [XC _], Hy as [YC _].
  unfold chw, channel in *.
  rewrite (zip_with_nth _ x y c [] [] []) by congruence.
  rewrite (zip_with_nth _ _ _ h [] [] []) by congruence.
  rewrite (zip_with_nth _ _ _ w 0 0 0) by congruence.
  reflexivity.
Qed.

Lemma entry_sum (xs : list chw) (acc : chw) C H W c h w :
  has_shape C H W acc -> Forall (has_shape C H W) xs ->
  (c < C)%nat -> (h < H)%nat -> (w < W)%nat ->
  has_shape C H W (fold_left add xs acc) /\
  entry (fold_left add xs acc) c h w
  = entry acc c h w + rsum (map (fun x => entry x c h w) xs).
Proof.
  intros Ha Hxs Hc Hh Hw. revert acc Ha.
  induction Hxs as [|x xs Hx Hxs IH]; intros acc Ha; cbn [fold_left map].
  - split; [exact Ha|]. unfold rsum. cbn [fold_right]. ring.
  - destruct (IH (add acc x) (shape_add acc x C H W Ha Hx)) as [S E].
    split; [exact S|]. rewrite E, (entry_add acc x C H W) by assumption.
    unfold rsum. cbn [fold_right]. ring.
Qed.

End MeanFacts.

(** X22.  On real tensors of one shape, the mean of a block is the
    arithmetic mean entry by entry: entry [(c, h, w)] of [sum(u) / len(u)]
    is the sum of the entries [(c, h, w)] of the elements of [u] over their
    number. *)
Theorem block_mean_entrywise (u : list RealTensor.chw) (C H W c h w : nat) :
  u <> [] -> Forall (RealTensor.has_shape C H W) u ->
  (c < C)%nat -> (h < H)%nat -> (w < W)%nat ->
  exists v,
    block_mean u = Ok v /\
    RealTensor.has_shape C H W v /\
    RealTensor.entry v c h w
    = (RealTensor.rsum (map (fun x => RealTensor.entry x c h w) u)
       / INR (length u))%R.
Proof.
  intros Hne Hu Hc Hh Hw.
  destruct u as [|x xs]; [congruence|].
  inversion Hu as [|? ? Hx Hxs]; subst.
  exists (div_int (fold_left add xs (radd 0 x)) (Py.len (x :: xs))).
  split; [reflexivity|].
  assert (S0 : RealTensor.has_shape C H W (radd 0 x))
    by (apply MeanFacts.shape_map3; exact Hx).
  destruct (MeanFacts.entry_sum xs (radd 0 x) C H W c h w S0 Hxs Hc Hh Hw)
    as [S E].
  split; [apply MeanFacts.shape_map3; exact S|].
  change (div_int (fold_left add xs (radd 0 x)) (Py.len (x :: xs)))
    with (map (map (map (fun v : R => (v / IZR (Py.len (x :: xs)))%R)))
              (fold_left add xs (radd 0 x))).
  rewrite (MeanFacts.entry_map3 _ _ C H W) by assumption.
  rewrite E.
  change (radd 0 x) with (map (map (map (fun v : R => (IZR 0 + v)%R))) x).
  rewrite (MeanFacts.entry_map3 _ _ C H W) by assumption.
  unfold Py.len. rewrite <- INR_IZR_INZ.
  unfold RealTensor.rsum. cbn [map fold_right].
  unfold Rdiv. ring.
Qed.

(** ** The further properties on concrete inputs *)

Lemma resize_list_selects_witness :
  0 <= 7 /\ Py.len [10; 10; 20; 20; 20; 30; 30] = 7 /\
  forall y, In y [10; 10; 20; 20; 20; 30; 30] -> In y [10; 20; 30].
Proof.
  apply (resize_list_selects [10; 20; 30] 7).
  vm_compute. reflexivity.
Defined.

Lemma resize_list_same_length_witness :
  resize_list [10; 20; 30] (Py.len [10; 20; 30]) = Ok [10; 20; 30].
Proof.
  apply resize_list_same_length. unfold Py.len, max_len. simpl. lia.
Defined.

Lemma resize_list_endpoints_witness :
  exists out,
    resize_list [10; 20; 30] 7 = Ok out /\
    nth_error out 0 = nth_error [10; 20; 30] 0 /\
    nth_error out (Z.to_nat (7 - 1))
    = nth_error [10; 20; 30] (Z.to_nat (Py.len [10; 20; 30] - 1)).
Proof.
  apply resize_list_endpoints.
  - unfold Py.len, max_len. simpl. lia.
  - unfold max_len. lia.
Defined.

Lemma downsampling_selects_distinct_witness :
  exists indices,
    resize_indices 49 13 = Ok indices /\
    forall a b, (a < b < length indices)%nat -> nth a indices 0 < nth b indices 0.
Proof.
  apply downsampling_selects_distinct.
  - lia.
  - unfold max_len. lia.
Defined.

Lemma upsampling_keeps_every_element_witness :
  exists out,
    resize_list [10; 20; 30] 7 = Ok out /\ forall x, In x [10; 20; 30] -> In x out.
Proof.
  apply upsampling_keeps_every_element.
  - unfold Py.len. simpl. lia.
  - unfold max_len. lia.
Defined.

Lemma integer_stride_sampling_witness :
  exists out,
    resize_list [10; 20; 30; 40; 50] 3 = Ok out /\
    Py.len out = 3 /\
    forall i, 0 <= i < 3 ->
      nth_error out (Z.to_nat i) = nth_error [10; 20; 30; 40; 50] (Z.to_nat (i * 2)).
Proof.
  apply integer_stride_sampling.
  - unfold Py.len, max_len. simpl. lia.
  - unfold max_len. lia.
  - unfold Py.len. simpl. lia.
Defined.

Lemma resize_list_errors_witness :
  resize_list [10; 20; 30] (-1) = Raise AssertionError /\
  resize_list (@nil Z) 2 = Raise IndexError.
Proof.
  split.
  - apply (proj1 (resize_list_errors [10; 20; 30] (-1))). lia.
  - apply (proj2 (resize_list_errors (@nil Z) 2)). lia.
Defined.

Lemma blend_upsampling_raises_witness :
  downsamp_mean [field_3x2; field_3x2] 5 = Raise ZeroDivisionError /\
  get_downtemp_noise unit no_randn [field_3x2; field_3x2] "blend" 5 tt
  = (Raise ZeroDivisionError, tt) /\
  get_downtemp_noise unit no_randn [field_3x2; field_3x2] "blend_norm" 5 tt
  = (Raise ZeroDivisionError, tt).
Proof.
  apply blend_upsampling_raises.
  - unfold Py.len. simpl. lia.
  - unfold max_len. lia.
Defined.

Lemma nonpositive_target_errors_witness :
  get_downtemp_noise unit no_randn [field_3x2] "blend" (-1) tt = (Raise ValueError, tt) /\
  get_downtemp_noise unit no_randn [field_3x2] "blend_norm" (-1) tt
  = (Raise ValueError, tt) /\
  (-1 < 0 ->
   get_downtemp_noise unit no_randn [field_3x2] "nearest" (-1) tt
   = (Raise AssertionError, tt) /\
   get_downtemp_noise unit no_randn [field_3x2] "randn" (-1) tt
   = (Raise AssertionError, tt)).
Proof.
  apply nonpositive_target_errors. lia.
Defined.

Lemma blend_target_one_is_mean_witness :
  exists v,
    Spec.mean [field_3x2; field_3x2] = Some v /\
    downsamp_mean [field_3x2; field_3x2] 1 = Ok [v] /\
    get_downtemp_noise unit no_randn [field_3x2; field_3x2] "blend" 1 tt = (Ok [v], tt).
Proof.
  apply blend_target_one_is_mean. unfold Py.len, max_len. simpl. lia.
Defined.

Lemma blend_same_length_witness :
  downsamp_mean [field_3x2; field_3x2] (Py.len [field_3x2; field_3x2])
  = Ok (map (fun e => div_int (radd 0 e) 1) [field_3x2; field_3x2]).
Proof.
  apply blend_same_length. unfold Py.len, max_len. simpl. lia.
Defined.

Lemma blend_equal_blocks_witness :
  exists ys,
    downsamp_mean [field_3x2; field_3x2; field_3x2; field_3x2] 2 = Ok ys /\
    forall k, 0 <= k < 2 ->
      Py.len (firstn (Z.to_nat 2)
                (skipn (Z.to_nat (k * 2)) [field_3x2; field_3x2; field_3x2; field_3x2]))
      = 2 /\
      exists v, nth_error ys (Z.to_nat k) = Some v /\
                Spec.mean (firstn (Z.to_nat 2)
                             (skipn (Z.to_nat (k * 2))
                                [field_3x2; field_3x2; field_3x2; field_3x2]))
                = Some v.
Proof.
  apply blend_equal_blocks.
  - lia.
  - lia.
  - unfold Py.len. simpl. lia.
  - unfold Py.len, max_len. simpl. lia.
Defined.

Lemma split_blocks_nonempty_iff_witness :
  exists blocks,
    split_into_n_sublists [0; 1; 2; 3; 4] 3 = Ok blocks /\
    ((forall u, In u blocks -> u <> []) <-> 3 <= Py.len [0; 1; 2; 3; 4]).
Proof.
  apply split_blocks_nonempty_iff.
  - unfold max_len. lia.
  - unfold Py.len, max_len. simpl. lia.
Defined.

Lemma only_randn_draws_witness :
  snd (get_downtemp_noise unit no_randn [field_3x2] "blend" 1 tt) = tt.
Proof.
  apply only_randn_draws. discriminate.
Defined.

Lemma warp_needs_two_frames_witness :
  fst (toy_warp [] tt 4 "nearest" tt 13 "BCTHW" 42 tt) = Raise IndexError /\
  fst (toy_warp [tt] tt 4 "nearest" tt 13 "BCTHW" 42 tt) = Raise ValueError.
Proof.
  split.
  - unfold toy_warp. apply warp_needs_two_frames. reflexivity.
  - unfold toy_warp.
    refine (proj2 (warp_needs_two_frames _ _ _ _ _ _ _ _ _ _ _ _ _ _ _ _ _ _ _ _ _ _ _ _
                     _ _ _ _ _ _ _ _ _ _ _ _ _ _) tt _).
    reflexivity.
Defined.

Lemma warp_composition_witness :
  exists (snapshots : list unit) (g2 : unit),
    length snapshots = length [tt; tt; tt] /\
    forall policy degradation T latent_shape g,
      toy_warp [tt; tt; tt] tt 4 policy degradation T latent_shape 42 g
      = let (r, g3) :=
          get_downtemp_noise unit no_randn (map (fun _ => field_3x2) snapshots)
            policy T g2 in
        match r with
        | Raise e => (Raise e, g3)
        | Ok downtemp =>
            let (mixed, g4) := (downtemp, g3) in
            (Ok (if String.eqb latent_shape "BTCHW" then mixed
                 else if String.eqb latent_shape "BCHW" then mixed
                 else mixed,
                 (length snapshots, Z.min 4 3)), g4)
        end.
Proof.
  unfold toy_warp.
  apply (warp_composition unit no_randn unit unit unit unit unit unit unit (nat * Z)%type
           (list RealTensor.chw) unit
           tt (fun _ => tt) (fun _ _ _ _ => (tt, tt)) (fun _ => (1, 64, 64, 3))
           (fun _ => [tt; tt; tt]) (fun _ _ _ _ _ _ g => (tt, g)) (fun _ => tt)
           (fun w _ _ g => (w, g)) (fun f _ => f) (fun f _ => f) (fun f => f)
           (fun _ _ => tt) (fun _ => field_3x2) (fun l c => (length l, c))
           (fun l _ g => (l, g)) (fun l => l) (fun l => l) (fun l => l)
           tt 4 42).
  simpl. lia.
Defined.

Lemma warp_succeeds_witness :
  exists out v g',
    toy_warp [tt; tt; tt] tt 4 "blend" tt 2 "BCTHW" 42 tt = (Ok (out, v), g').
Proof.
  unfold toy_warp. apply warp_succeeds.
  - simpl. lia.
  - unfold Py.len, max_len. simpl. lia.
  - unfold max_len. lia.
  - right. right. right. split; [now left|]. unfold Py.len. simpl. lia.
Defined.

Lemma warp_blend_raises_on_short_video_witness :
  fst (toy_warp [tt; tt; tt] tt 4 "blend" tt 13 "BCTHW" 42 tt) = Raise ZeroDivisionError.
Proof.
  unfold toy_warp. apply warp_blend_raises_on_short_video.
  - simpl. lia.
  - unfold Py.len. simpl. lia.
  - unfold max_len. lia.
  - now left.
Defined.

Lemma warp_visualization_independent_witness :
  toy_warp [tt; tt] tt 4 "disabled" tt 13 "BCTHW" 42 tt
  = (Ok ([field_3x2; field_3x2], (2%nat, 3)), tt) /\
  toy_warp [tt; tt] tt 4 "nearest" tt 1 "BCHW" 42 tt
  = (Ok ([field_3x2], (2%nat, 3)), tt) /\
  (2%nat, 3) = (2%nat, 3).
Proof.
  assert (E1 : toy_warp [tt; tt] tt 4 "disabled" tt 13 "BCTHW" 42 tt
               = (Ok ([field_3x2; field_3x2], (2%nat, 3)), tt)) by reflexivity.
  assert (E2 : toy_warp [tt; tt] tt 4 "nearest" tt 1 "BCHW" 42 tt
               = (Ok ([field_3x2], (2%nat, 3)), tt)) by (vm_compute; reflexivity).
  split; [exact E1|]. split; [exact E2|].
  unfold toy_warp in E1, E2.
  refine (warp_visualization_independent _ _ _ _ _ _ _ _ _ _ _ _ _ _ _ _ _ _ _ _ _ _
            _ _ _ _ _ _ _ _ _ _ _ _ _ _ _ _ _ _ _ _ _ _ _ _ _ _ _ _ E1 E2).
  simpl. lia.
Defined.

Lemma split_str_never_returns_witness :
  (3 <= 0 -> split_into_n_sublists_str "abcdef" 3 = Raises ValueError) /\
  (1 <= 3 -> split_into_n_sublists_str "abcdef" 3 = RaisesTypeError) /\
  (forall s, split_into_n_sublists_str "abcdef" 3 <> Returns s).
Proof.
  apply split_str_never_returns.
  - unfold max_len. lia.
  - unfold Py.len, max_len. simpl. lia.
Defined.

Lemma block_mean_entrywise_witness :
  exists v,
    block_mean [field_3x2; field_3x2] = Ok v /\
    RealTensor.has_shape 1 3 2 v /\
    RealTensor.entry v 0 1 1
    = (RealTensor.rsum (map (fun x => RealTensor.entry x 0 1 1) [field_3x2; field_3x2])
       / INR (length [field_3x2; field_3x2]))%R.
Proof.
  apply block_mean_entrywise.
  - discriminate.
  - repeat constructor.
  - lia.
  - lia.
  - lia.
Defined.

(** ** [normalized_noises] on real tensors *)

Module NormFacts.
Import RealTensor RealTensorFacts.
Local Open Scope R_scope.

Lemma channel_width (ch : channel) (H W : nat) :
  length ch = H -> Forall (fun row => length row = W) ch -> (0 < H)%nat ->
  width ch = W.
Proof.
  intros LH FR HH. unfold width.
  destruct ch as [|row ch]; [simpl in LH; lia|]. simpl. now inversion FR.
Qed.

Lemma shape_div_std1 (x : chw) C H W :
  has_shape C H W x -> has_shape C H W (chw_div_std1 x).
Proof.
  intros [HC HF]. unfold chw_div_std1. split; [now rewrite length_map|].
  apply Forall_map. eapply Forall_impl; [|exact HF].
  intros ch [LH FR]. split; [now rewrite length_map|].
  apply Forall_map. rewrite Forall_forall in *. intros row Hrow.
  assert (HH : (0 < H)%nat).
  { destruct ch; [destruct Hrow|simpl in LH; lia]. }
  pose proof (channel_width ch H W LH (proj2 (Forall_forall _ _) FR) HH) as WW.
  unfold zip_with. rewrite length_map, length_combine, std_dim1_length, WW.
  rewrite (FR row Hrow). lia.
Qed.

End NormFacts.

(** X23.  Normalising twice changes nothing: once every column of a field
    (of at least two rows) has been divided by its non-zero standard
    deviation, a second [x / x.std(1, keepdim=True)] divides by 1. *)
Theorem normalization_idempotent (x : RealTensor.chw) (C H W c h w : nat) :
  RealTensor.has_shape C H W x -> (2 <= H)%nat ->
  (c < C)%nat -> (h < H)%nat -> (w < W)%nat ->
  RealTensor.std (RealTensor.column (nth c x []) w) <> 0%R ->
  RealTensor.entry (RealTensor.chw_div_std1 (RealTensor.chw_div_std1 x)) c h w
  = RealTensor.entry (RealTensor.chw_div_std1 x) c h w.
Proof.
  intros Hs H2 Hc Hh Hw Hnz.
  rewrite (RealTensorFacts.entry_div_std1 C H W (RealTensor.chw_div_std1 x))
    by (try apply NormFacts.shape_div_std1; assumption).
  rewrite (RealTensorFacts.column_unit_std C H W) by assumption.
  unfold Rdiv. rewrite Rinv_1. ring.
Qed.

Lemma normalization_idempotent_witness :
  RealTensor.entry (RealTensor.chw_div_std1 (RealTensor.chw_div_std1 field_3x2)) 0 1 1
  = RealTensor.entry (RealTensor.chw_div_std1 field_3x2) 0 1 1.
Proof.
  apply (normalization_idempotent field_3x2 1 3 2).
  - exact RealTensorFacts.field_3x2_shape.
  - lia.
  - lia.
  - lia.
  - lia.
  - change (RealTensor.column (nth 0 field_3x2 []) 1) with [0; 2; 4]%R.
    rewrite RealTensorFacts.std_column1. lra.
Defined.
